(** * regress_cc: optimizer sets and the regression walk

    A shallow embedding of [regress_cc.py]: the class [Optimizers]
    ([fromArgs], [flatten], [diff], [regress]) and the function
    [testPredicate], with the external processes (the compiler and the
    predicate commands) taken as oracles.

    Python dictionaries are insertion-ordered and are passed by reference:
    an [Optimizers] object holds the location of its dictionary in a store,
    so that two objects built on the same dictionary share every update. *)

From Stdlib Require Import String Ascii List Bool.
From stdpp Require Import base option list gmap strings.
Import ListNotations.
Local Open Scope string_scope.
Local Open Scope list_scope.

(** ** Exceptions and results *)

(** The exceptions the program can raise. [CalledProcessError] and
    [TimeoutExpired] are the two subclasses of [subprocess.SubprocessError]
    that [subprocess.run] raises; their [stdout] attribute is the captured
    output, or Python's [None] when nothing was captured. *)
Inductive exn : Type :=
| CalledProcessError (stdout stderr : option string)
| TimeoutExpired (stdout : option string)
| OSError
| KeyError (key : string)
| IndexError
| AttributeError
| UnicodeDecodeError
| ValueError
| OtherError (name : string).

Inductive res (A : Type) : Type :=
| Ok (a : A)
| Raise (e : exn).
Arguments Ok {A} a.
Arguments Raise {A} e.

Definition bind {A B : Type} (r : res A) (k : A -> res B) : res B :=
  match r with
  | Ok a => k a
  | Raise e => Raise e
  end.

Notation "'do' x <- r ; k" := (bind r (fun x => k))
  (at level 10, x name, r at level 100, k at level 200).

(** [isinstance(e, subprocess.SubprocessError)] *)
Definition is_SubprocessError (e : exn) : bool :=
  match e with
  | CalledProcessError _ _ | TimeoutExpired _ => true
  | _ => false
  end.

(** [e.stdout]; [None] stands for Python's [None]. *)
Definition exn_stdout (e : exn) : option string :=
  match e with
  | CalledProcessError out _ => out
  | TimeoutExpired out => out
  | _ => None
  end.

(** [e.stderr] *)
Definition exn_stderr (e : exn) : option string :=
  match e with
  | CalledProcessError _ err => err
  | _ => None
  end.

(** ** Dictionaries *)

(** A [dict] of strings: its items in insertion order, keys distinct. *)
Definition dict : Type := list (string * string).

(** [d[k]], [None] standing for the [KeyError]. *)
Fixpoint dict_get (d : dict) (k : string) : option string :=
  match d with
  | [] => None
  | (k', v) :: d' => if String.eqb k' k then Some v else dict_get d' k
  end.

(** [d[k] = v]: an existing key keeps its place, a new one goes last. *)
Fixpoint dict_set (d : dict) (k v : string) : dict :=
  match d with
  | [] => [(k, v)]
  | (k', v') :: d' =>
      if String.eqb k' k then (k', v) :: d' else (k', v') :: dict_set d' k v
  end.

(** [dict(pairs)] *)
Definition dict_of (pairs : list (string * string)) : dict :=
  fold_left (fun d p => dict_set d (fst p) (snd p)) pairs [].

Definition dict_keys (d : dict) : list string := map fst d.

(** [s[n:]] *)
Fixpoint skip (n : nat) (s : string) : string :=
  match n, s with
  | S n', String _ s' => skip n' s'
  | _, _ => s
  end.

(** [s.replace(old, new, 1)]: the leftmost occurrence only. *)
Fixpoint replace_first (old new s : string) : string :=
  if String.prefix old s then new +:+ skip (String.length old) s
  else match s with
       | EmptyString => EmptyString
       | String c s' => String c (replace_first old new s')
       end.

(** ** The store *)

Definition loc : Type := nat.

(** The dictionaries alive in the program, by location. *)
Abbreviation heap := (gmap loc dict).

Record Optimizers : Type := mkOptimizers {
  options : loc;          (* self.options: a reference to a dict *)
  args : list string;     (* self.args: a list, or what an iterator still yields *)
  cc : string             (* self.cc *)
}.

(** The dictionary behind a reference. *)
Definition deref (h : heap) (l : loc) : dict := default [] (h !! l).

(** [obj.options[k] = v] on the dictionary at [l]. *)
Definition store (h : heap) (l : loc) (k v : string) : heap :=
  <[l := dict_set (deref h l) k v]> h.

(** ** The compiler *)

(** What running [cc args... -Q --help=optimizers] with captured output and
    [check = True] comes to. [CcReport rows]: exit status 0, [rows] being
    the lines of the decoded standard output, each split at white space
    ([map(str.split, lines)]). [CcUndecodable]: exit status 0, but the
    standard output is not UTF-8, so that [decode] raises.
    [CcFailed out err]: a non-zero exit status with the captured streams.
    [CcNotStarted]: the process could not be started. *)
Inductive cc_outcome : Type :=
| CcReport (rows : list (list string))
| CcUndecodable
| CcFailed (out err : string)
| CcNotStarted.

(** The filter of [fromArgs]: [len(pair) is 2 and pair[0].startswith('-f')]. *)
Definition keep_row (row : list string) : option (string * string) :=
  match row with
  | [name; state] => if String.prefix "-f" name then Some (name, state) else None
  | _ => None
  end.

Definition parse_report (rows : list (list string)) : dict :=
  dict_of (omap keep_row rows).

(** [Optimizers.diff] consumed to its end: the items of [other], in order,
    whose value differs from [self]'s; the lookup in [self] raises
    [KeyError] at the first key [self] lacks. *)
Fixpoint diff_items (self_options other_items : dict) : res dict :=
  match other_items with
  | [] => Ok []
  | (k, v) :: rest =>
      match dict_get self_options k with
      | None => Raise (KeyError k)
      | Some sv =>
          do tl <- diff_items self_options rest;
          Ok (if String.eqb sv v then tl else (k, v) :: tl)
      end
  end.

Definition diff (h : heap) (self other : Optimizers) : res dict :=
  diff_items (deref h (options self)) (deref h (options other)).

(** [transform] of [flatten] *)
Definition transform (pair : string * string) : string :=
  if String.eqb (snd pair) "[enabled]" then fst pair
  else if String.eqb (snd pair) "[disabled]" then replace_first "-f" "-fno-" (fst pair)
  else fst pair +:+ snd pair.

Definition not_default (pair : string * string) : bool :=
  negb (String.eqb (snd pair) "[default]").

Section Compiler.

(** The compiler as an oracle: from the compiler's name and the arguments
    before [-Q --help=optimizers] to the outcome of the process. *)
Variable run_cc : string -> list string -> cc_outcome.

(** The body of [fromArgs] up to the constructor call: the dictionary
    built from the report. [subprocess.run] raises [CalledProcessError]
    on a non-zero status (re-raised by the handler) and an [OSError]
    when the program cannot be started (no handler matches); [decode]
    raises [UnicodeDecodeError] on a report that is not UTF-8 (no handler
    matches either). *)
Definition query (cmd_args : list string) (compiler : string) : res dict :=
  match run_cc compiler cmd_args with
  | CcReport rows => Ok (parse_report rows)
  | CcUndecodable => Raise UnicodeDecodeError
  | CcFailed out err => Raise (CalledProcessError (Some out) (Some err))
  | CcNotStarted => Raise OSError
  end.

(** [Optimizers.fromArgs] on a list of arguments, as the program calls it
    ([shlex.split] returns a list): the new object owns a new dictionary
    and keeps the list. *)
Definition fromArgs (h : heap) (cmd_args : list string) (compiler : string)
  : res (heap * Optimizers) :=
  do d <- query cmd_args compiler;
  let l := fresh (dom h) in
  Ok (<[l := d]> h, mkOptimizers l cmd_args compiler).

(** [Optimizers.flatten], its iterator consumed to the end. The query is
    made when [flatten] is called; the [KeyError] of the lazy [diff], if
    any, comes when the iterator is consumed. *)
Definition flatten (h : heap) (self : Optimizers) : res (list string) :=
  do implied <- query (args self) (cc self);
  do delta <- diff_items implied (deref h (options self));
  Ok (args self ++ map transform (List.filter not_default delta)).

(** [Optimizers.fromArgs] handed a one-shot iterator instead of a list, as
    the [itertools.chain] that [flatten] returns is; [items] is what the
    iterator yields. [subprocess.run] drains it into the command line
    (line 34), and the constructor keeps the iterator itself as [args]
    (line 36): drained, it yields nothing whenever it is read again, which
    is the empty list for every later use of [args]. *)
Definition fromArgs_iterator (h : heap) (items : list string) (compiler : string)
  : res (heap * Optimizers) :=
  do d <- query items compiler;
  let l := fresh (dom h) in
  Ok (<[l := d]> h, mkOptimizers l [] compiler).

End Compiler.

(** ** The regression walk *)

Section Regress.

Variable run_cc : string -> list string -> cc_outcome.

(** Whether [bytes.decode("utf-8")] accepts the captured output. *)
Variable utf8_ok : string -> bool.

(** The predicate [testOptions]: it is handed the iterator of [flatten]
    and consumes it before anything else, as [testPredicate] does. *)
Variable testOptions : list string -> res unit.

(** The arguments of the FAIL log line, evaluated whatever the log level:
    [e.stdout.decode("utf-8")]. *)
Definition log_fail (e : exn) : res unit :=
  match exn_stdout e with
  | None => Raise AttributeError
  | Some out => if utf8_ok out then Ok tt else Raise UnicodeDecodeError
  end.

(** The body of the [try] statement: [testOptions(result.flatten())]. *)
Definition try_body (h : heap) (result : Optimizers) : res unit :=
  do argv <- flatten run_cc h result;
  testOptions argv.

(** One pass through the body of the [for] loop. *)
Definition trial (h : heap) (result : Optimizers) (key value : string)
  : heap * res unit :=
  match dict_get (deref h (options result)) key with
  | None => (h, Raise (KeyError key))
  | Some original =>
      let h1 := store h (options result) key value in
      match try_body h1 result with
      | Ok _ => (h1, Ok tt)
      | Raise e =>
          if is_SubprocessError e
          then (store h1 (options result) key original, log_fail e)
          else (h1, Raise e)
      end
  end.

(** The [for] loop over the lazy [base.diff(reach)]: the filter looks
    [key] up in [base]'s dictionary as it stands when the item is
    reached. [items] are the items of [reach]'s dictionary: the loop
    writes to [result]'s dictionary only, and only where its value
    differs from [reach]'s, so it never changes them. *)
Fixpoint regress_loop (h : heap) (base result : Optimizers) (items : dict)
  : heap * res unit :=
  match items with
  | [] => (h, Ok tt)
  | (key, value) :: rest =>
      match dict_get (deref h (options base)) key with
      | None => (h, Raise (KeyError key))
      | Some current =>
          if String.eqb current value then regress_loop h base result rest
          else match trial h result key value with
               | (h', Ok _) => regress_loop h' base result rest
               | (h', Raise e) => (h', Raise e)
               end
      end
  end.

(** [Optimizers.regress]: [result] is built on [base]'s own dictionary.
    The store is returned in both cases: what an exception leaves
    behind is visible to the caller through [base]. *)
Definition regress (h : heap) (base reach : Optimizers)
  : heap * res Optimizers :=
  let result := mkOptimizers (options base) (args reach) (cc base) in
  match regress_loop h base result (deref h (options reach)) with
  | (h', Ok _) => (h', Ok result)
  | (h', Raise e) => (h', Raise e)
  end.

End Regress.

(** ** The predicate *)

(** What [subprocess.run(cmd, stdout = PIPE, stderr = STDOUT, check = True,
    timeout = timeout)] comes to for a non-empty [cmd]. [TimedOut out]: the
    timeout expired, [out] being what had been captured by then ([None]
    when nothing had). [NotStarted]: the program could not be started.
    [BadArgument]: the vector cannot be handed to the system (a token with
    a NUL in it). *)
Inductive run_outcome : Type :=
| Exit0
| ExitNonZero (out : string)
| TimedOut (out : option string)
| NotStarted
| BadArgument.

(** The loop splitting the token stream at [';']: [cmds] are the vectors
    already closed, [argv] the one being filled (the last of the list). *)
Fixpoint split_cmds (cmds : list (list string)) (argv tokens : list string)
  : list (list string) :=
  match tokens with
  | [] => cmds ++ [argv]
  | token :: rest =>
      if String.eqb token ";" then split_cmds (cmds ++ [argv]) [] rest
      else split_cmds cmds (argv ++ [token]) rest
  end.

Section Predicate.

(** Lines 97-98: formatting the template and [shlex.split]. *)
Variable tokenise : list string -> res (list string).

(** The predicate commands as an oracle. *)
Variable run_cmd : list string -> run_outcome.

(** [subprocess.run] on a command vector: the empty vector has no
    [args[0]] to execute. *)
Definition subprocess_run (cmd : list string) : res unit :=
  match cmd with
  | [] => Raise IndexError
  | _ :: _ =>
      match run_cmd cmd with
      | Exit0 => Ok tt
      | ExitNonZero out => Raise (CalledProcessError (Some out) None)
      | TimedOut out => Raise (TimeoutExpired out)
      | NotStarted => Raise OSError
      | BadArgument => Raise ValueError
      end
  end.

Fixpoint run_all (cmds : list (list string)) : res unit :=
  match cmds with
  | [] => Ok tt
  | cmd :: rest => do u <- subprocess_run cmd; run_all rest
  end.

Definition testPredicate (opts : list string) : res unit :=
  do tokens <- tokenise opts;
  run_all (split_cmds [] [] tokens).

End Predicate.

(** ** The specification's reading of [flatten] *)

(** The resolved state of a flag, as the specification's data model has
    it; the code keeps the string of the compiler's report. *)
Inductive flag_state : Type :=
| Default
| Enabled
| Disabled
| Valued (v : string).

Definition state_of (value : string) : flag_state :=
  if String.eqb value "[default]" then Default
  else if String.eqb value "[enabled]" then Enabled
  else if String.eqb value "[disabled]" then Disabled
  else Valued value.

(** The leftmost occurrence of [-f] in [name], if any, becomes [-fno-]. *)
Definition rewrite_leftmost (name : string) : string :=
  match String.index 0 "-f" name with
  | Some i => String.substring 0 i name +:+ "-fno-" +:+ skip (i + 2) name
  | None => name
  end.

(** What one delta entry contributes to the argument list. *)
Definition emit (entry : string * string) : list string :=
  match state_of (snd entry) with
  | Default => []
  | Enabled => [fst entry]
  | Disabled => [rewrite_leftmost (fst entry)]
  | Valued v => [fst entry +:+ v]
  end.

(** The pairs of [other] whose value differs from [self]'s. *)
Definition differs (self_options : dict) (pair : string * string) : bool :=
  match dict_get self_options (fst pair) with
  | Some sv => negb (String.eqb sv (snd pair))
  | None => false
  end.

(** A predicate failure, as [regress] expects it: a subprocess error whose
    captured output can be logged. *)
Definition PredicateFailure (utf8_ok : string -> bool) (e : exn) : Prop :=
  is_SubprocessError e = true /\
  exists out, exn_stdout e = Some out /\ utf8_ok out = true.

(** ** Sample data *)

Module Sample.

Definition base_options : dict :=
  [("-ftree-vectorize", "[enabled]"); ("-funroll-loops", "[disabled]");
   ("-finline-limit", "=600")].

Definition reach_options : dict :=
  [("-ftree-vectorize", "[disabled]"); ("-funroll-loops", "[enabled]");
   ("-finline-limit", "=600")].

Definition report (d : dict) : list (list string) :=
  ["The"; "following"; "options"; "control"; "optimizations:"]
    :: map (fun p => [fst p; snd p]) d ++ [["-fhandle-exceptions"]].

(** A compiler whose report depends on the first argument only. *)
Definition gcc (compiler : string) (cmd_args : list string) : cc_outcome :=
  match cmd_args with
  | first :: _ =>
      if String.eqb first "-O3" then CcReport (report reach_options)
      else CcReport (report base_options)
  | [] => CcReport (report base_options)
  end.

Definition broken_cc (compiler : string) (cmd_args : list string) : cc_outcome :=
  CcFailed "" "gcc: error: unrecognized command-line option".

Definition missing_cc (compiler : string) (cmd_args : list string) : cc_outcome :=
  CcNotStarted.

Definition base : Optimizers := mkOptimizers 0 ["-O2"] "gcc".
Definition reach : Optimizers := mkOptimizers 1 ["-O3"] "gcc".
Definition working : Optimizers := mkOptimizers 0 ["-O3"] "gcc".

(** A set that knows one flag only. *)
Definition narrow_options : dict := [("-ftree-vectorize", "[enabled]")].
Definition narrow : Optimizers := mkOptimizers 2 ["-O0"] "gcc".

Definition h0 : heap :=
  <[0 := base_options]> (<[1 := reach_options]> (<[2 := narrow_options]> ∅)).

Definition utf8_any (out : string) : bool := true.

Definition accept (argv : list string) : res unit := Ok tt.

Definition reject (argv : list string) : res unit :=
  Raise (CalledProcessError (Some "FAILED") None).

(** The predicate of the specification's scenario: it fails when loops
    are unrolled, which [-O3] implies unless [-fno-unroll-loops] is
    among the arguments. *)
Definition no_unroll (argv : list string) : res unit :=
  if existsb (String.eqb "-fno-unroll-loops") argv
  then Ok tt
  else Raise (CalledProcessError (Some "FAILED") None).

Definition crash (argv : list string) : res unit := Raise IndexError.

(** Every predicate command runs into the timeout without output. *)
Definition hangs (cmd : list string) : run_outcome := TimedOut None.

Definition words (opts : list string) : res (list string) :=
  Ok ("make" :: opts).

Definition no_words (opts : list string) : res (list string) := Ok [].

End Sample.

(** ** The program *)

Section Main.

Variable run_cc : string -> list string -> cc_outcome.
Variable utf8_ok : string -> bool.
Variable tokenise : list string -> res (list string).
Variable run_cmd : list string -> run_outcome.

(** Lines 168-173 of the script: both sets are queried, [begin] first, the
    walk is run with [testPredicate] as its predicate, and the working set
    is flattened and joined with the separator for printing.
    [begin_args] and [end_args] are [shlex.split] of the two option
    strings; the result is the line printed. *)
Definition main (h : heap) (begin_args end_args : list string)
  (compiler separator : string) : heap * res string :=
  match fromArgs run_cc h begin_args compiler with
  | Raise e => (h, Raise e)
  | Ok (h1, base) =>
      match fromArgs run_cc h1 end_args compiler with
      | Raise e => (h1, Raise e)
      | Ok (h2, reach) =>
          match regress run_cc utf8_ok (testPredicate tokenise run_cmd)
                  h2 base reach with
          | (h3, Raise e) => (h3, Raise e)
          | (h3, Ok working) =>
              (h3, do argv <- flatten run_cc h3 working;
                   Ok (String.concat separator argv))
          end
      end
  end.

End Main.

(** The token stream a list of command vectors comes from: the vectors
    with a [';'] between each two. *)
Fixpoint join_cmds (cmds : list (list string)) : list string :=
  match cmds with
  | [] => []
  | [cmd] => cmd
  | cmd :: rest => cmd ++ ";" :: join_cmds rest
  end.

(** A command vector [subprocess.run] can execute with status 0. *)
Definition runs_clean (run_cmd : list string -> run_outcome) (cmd : list string)
  : Prop :=
  cmd <> [] /\ run_cmd cmd = Exit0.

Module Demo.

(** Predicate commands that all succeed, and that all fail. *)
Definition passes (cmd : list string) : run_outcome := Exit0.
Definition fails (cmd : list string) : run_outcome := ExitNonZero "FAILED".

(** A compiler whose report is not UTF-8. *)
Definition garbled_cc (compiler : string) (cmd_args : list string) : cc_outcome :=
  CcUndecodable.

(** A template without a substitution point. *)
Definition fixed (opts : list string) : res (list string) :=
  Ok ["make"; "test"].

(** A command line with a closing [';']. *)
Definition closed (opts : list string) : res (list string) :=
  Ok (["make"; "test"] ++ [";"]).

(** Two sets on one dictionary. *)
Definition twin : Optimizers := mkOptimizers 0 ["-O3"] "clang".

(** A set with a flag the compiler does not report. *)
Definition odd_options : dict :=
  [("-ftree-vectorize", "[enabled]"); ("-fweb", "[enabled]")].
Definition odd : Optimizers := mkOptimizers 3 ["-O3"] "gcc".
Definition h1 : heap := <[3 := odd_options]> Sample.h0.

(** A report with a flag listed twice and rows the filter drops. *)
Definition rows : list (list string) :=
  [["-ftree-vectorize"; "[enabled]"]; ["-O2"; "[enabled]"];
   ["-funroll-loops"; "[disabled]"]; ["-ftree-vectorize"; "[disabled]"];
   ["-fweb"]].

End Demo.

Example sample_flatten :
  flatten Sample.gcc Sample.h0 Sample.working
  = Ok ["-O3"; "-ftree-vectorize"; "-fno-unroll-loops"].
Proof. vm_compute. reflexivity. Qed.

Example sample_regress :
  regress Sample.gcc Sample.utf8_any Sample.no_unroll Sample.h0 Sample.base Sample.reach
  = (<[0 := [("-ftree-vectorize", "[disabled]"); ("-funroll-loops", "[disabled]");
             ("-finline-limit", "=600")]]> Sample.h0, Ok Sample.working).
Proof. vm_compute. reflexivity. Qed.

(** ** Dictionaries and the store *)

Lemma eqb_string_true (a b : string) : String.eqb a b = true <-> a = b.
Proof. apply String.eqb_eq. Qed.

Lemma eqb_string_false (a b : string) : String.eqb a b = false <-> a <> b.
Proof. apply String.eqb_neq. Qed.

Ltac case_eqb a b :=
  let E := fresh "E" in
  destruct (String.eqb a b) eqn:E;
  [apply eqb_string_true in E | apply eqb_string_false in E].

Lemma dict_get_set_eq (d : dict) (k v o : string) :
  dict_get d k = Some o -> dict_get (dict_set d k v) k = Some v.
Proof.
  induction d as [|[k' v'] d IH]; simpl; [discriminate|].
  case_eqb k' k; simpl.
  - intros _. subst. now rewrite String.eqb_refl.
  - intros H. apply eqb_string_false in E. rewrite E. auto.
Qed.

Lemma dict_get_set_ne (d : dict) (k k' v : string) :
  k <> k' -> dict_get (dict_set d k v) k' = dict_get d k'.
Proof.
  intros Hne. induction d as [|[k0 v0] d IH]; simpl.
  - apply eqb_string_false in Hne. now rewrite Hne.
  - case_eqb k0 k; simpl.
    + subst. apply eqb_string_false in Hne. now rewrite Hne.
    + now rewrite IH.
Qed.

Lemma dict_set_back (d : dict) (k v o : string) :
  dict_get d k = Some o -> dict_set (dict_set d k v) k o = d.
Proof.
  induction d as [|[k' v'] d IH]; simpl; [discriminate|].
  case_eqb k' k; simpl.
  - intros [= ->]. subst. now rewrite String.eqb_refl.
  - intros H. apply eqb_string_false in E. rewrite E. now rewrite IH.
Qed.

Lemma dict_keys_set (d : dict) (k v o : string) :
  dict_get d k = Some o -> dict_keys (dict_set d k v) = dict_keys d.
Proof.
  unfold dict_keys.
  induction d as [|[k' v'] d IH]; simpl; [discriminate|].
  case_eqb k' k; simpl; [reflexivity|].
  intros H. f_equal. auto.
Qed.

Lemma dict_get_Some_key (d : dict) (k v : string) :
  dict_get d k = Some v -> In k (dict_keys d).
Proof.
  induction d as [|[k' v'] d IH]; simpl; [discriminate|].
  case_eqb k' k; [now left | right; auto].
Qed.

Lemma dict_get_None_key (d : dict) (k : string) :
  dict_get d k = None -> ~ In k (dict_keys d).
Proof.
  induction d as [|[k' v'] d IH]; simpl; [tauto|].
  case_eqb k' k; [discriminate|].
  intros H [Hk | Hk]; [congruence | now apply IH].
Qed.

Lemma dict_get_key (d : dict) (k : string) :
  In k (dict_keys d) -> exists v, dict_get d k = Some v.
Proof.
  intros Hin. destruct (dict_get d k) eqn:E; [eauto|].
  now apply dict_get_None_key in E.
Qed.

Lemma dict_get_NoDup (d : dict) (k v : string) :
  NoDup (dict_keys d) -> In (k, v) d -> dict_get d k = Some v.
Proof.
  induction d as [|[k' v'] d IH]; simpl; [tauto|].
  intros Hnd [Heq | Hin].
  - injection Heq as -> ->. now rewrite String.eqb_refl.
  - inversion Hnd as [|? ? Hk Hd]; subst.
    case_eqb k' k.
    + subst. exfalso. apply Hk. apply list_elem_of_In.
      apply (in_map fst) in Hin. exact Hin.
    + auto.
Qed.

Lemma dict_get_In (d : dict) (k v : string) :
  dict_get d k = Some v -> In (k, v) d.
Proof.
  induction d as [|[k' v'] d IH]; simpl; [discriminate|].
  case_eqb k' k.
  - intros [= ->]. subst. now left.
  - intros H. right. auto.
Qed.

Lemma deref_allocated (h : heap) (l : loc) (k v : string) :
  dict_get (deref h l) k = Some v -> h !! l = Some (deref h l).
Proof.
  unfold deref. destruct (h !! l); simpl; [reflexivity | discriminate].
Qed.

Lemma deref_store_eq (h : heap) (l : loc) (k v : string) :
  deref (store h l k v) l = dict_set (deref h l) k v.
Proof. unfold store, deref at 1. now rewrite lookup_insert_eq. Qed.

Lemma deref_store_ne (h : heap) (l l' : loc) (k v : string) :
  l <> l' -> deref (store h l k v) l' = deref h l'.
Proof. intros H. unfold store, deref at 1. now rewrite lookup_insert_ne. Qed.

Lemma lookup_store_ne (h : heap) (l l' : loc) (k v : string) :
  l <> l' -> store h l k v !! l' = h !! l'.
Proof. intros H. unfold store. now rewrite lookup_insert_ne. Qed.

Lemma store_back (h : heap) (l : loc) (k v o : string) :
  dict_get (deref h l) k = Some o -> store (store h l k v) l k o = h.
Proof.
  intros H. unfold store at 1. rewrite deref_store_eq.
  rewrite (dict_set_back _ _ _ _ H). unfold store.
  rewrite insert_insert_eq. apply insert_id. eapply deref_allocated; eauto.
Qed.

(** ** [diff] *)

Lemma diff_items_ok (self_options items : dict) :
  (forall k, In k (dict_keys items) -> exists v, dict_get self_options k = Some v) ->
  diff_items self_options items = Ok (List.filter (differs self_options) items).
Proof.
  induction items as [|[k v] items IH]; simpl; intros Hkeys; [reflexivity|].
  destruct (Hkeys k (or_introl eq_refl)) as [sv Hsv].
  unfold differs at 1. simpl. rewrite Hsv.
  rewrite IH by (intros k' Hk'; apply Hkeys; now right).
  simpl. now destruct (String.eqb sv v).
Qed.

Lemma diff_items_KeyError (self_options items : dict) :
  (exists k, In k (dict_keys items) /\ dict_get self_options k = None) ->
  exists k, diff_items self_options items = Raise (KeyError k)
            /\ In k (dict_keys items) /\ dict_get self_options k = None.
Proof.
  induction items as [|[k v] items IH]; simpl; intros [k0 [Hin Hnone]]; [tauto|].
  destruct (dict_get self_options k) as [sv|] eqn:Hk.
  - destruct Hin as [-> | Hin]; [congruence|].
    destruct IH as [k1 [Hraise [Hin1 Hnone1]]]; [eauto|].
    exists k1. rewrite Hraise. simpl. auto.
  - exists k. auto.
Qed.

(** C9. The precondition of [self.diff(other)]: when some flag of [other]
    is absent from [self], consuming the diff raises a [KeyError] (at a flag
    of [other] that [self] lacks); when every flag of [other] is in [self],
    the diff is exactly the items of [other] whose value differs from
    [self]'s, in the order of [other]'s dictionary. *)
Theorem diff_precondition (h : heap) (self other : Optimizers) :
  ((exists k, In k (dict_keys (deref h (options other)))
              /\ dict_get (deref h (options self)) k = None) ->
   exists k, diff h self other = Raise (KeyError k)
             /\ In k (dict_keys (deref h (options other)))
             /\ dict_get (deref h (options self)) k = None)
  /\
  ((forall k, In k (dict_keys (deref h (options other))) ->
              exists v, dict_get (deref h (options self)) k = Some v) ->
   diff h self other
   = Ok (List.filter (differs (deref h (options self))) (deref h (options other)))).
Proof.
  split; intros H.
  - now apply diff_items_KeyError.
  - now apply diff_items_ok.
Qed.

Lemma diff_precondition_witness :
  (exists k, diff Sample.h0 Sample.narrow Sample.reach = Raise (KeyError k)
             /\ In k (dict_keys (deref Sample.h0 (options Sample.reach)))
             /\ dict_get (deref Sample.h0 (options Sample.narrow)) k = None)
  /\
  diff Sample.h0 Sample.base Sample.reach
  = Ok (List.filter (differs (deref Sample.h0 (options Sample.base)))
          (deref Sample.h0 (options Sample.reach))).
Proof.
  split.
  - apply (proj1 (diff_precondition Sample.h0 Sample.narrow Sample.reach)).
    exists "-funroll-loops". split; vm_compute; auto.
  - apply (proj2 (diff_precondition Sample.h0 Sample.base Sample.reach)).
    intros k Hk. vm_compute in Hk.
    destruct Hk as [<- | [<- | [<- | []]]]; eexists; vm_compute; reflexivity.
Defined.

Example sample_diff :
  diff Sample.h0 Sample.base Sample.reach
  = Ok [("-ftree-vectorize", "[disabled]"); ("-funroll-loops", "[enabled]")].
Proof. vm_compute. reflexivity. Qed.

(** ** [flatten] *)

Lemma replace_first_index (old new s : string) :
  replace_first old new s
  = match String.index 0 old s with
    | Some i => String.substring 0 i s +:+ new +:+ skip (i + String.length old) s
    | None => s
    end.
Proof.
  induction s as [|c s IH].
  - destruct old; reflexivity.
  - cbn [replace_first String.index].
    destruct (String.prefix old (String c s)) eqn:Hp; [reflexivity|].
    rewrite IH. destruct (String.index 0 old s) as [i|]; reflexivity.
Qed.

Lemma replace_first_rewrite_leftmost (name : string) :
  replace_first "-f" "-fno-" name = rewrite_leftmost name.
Proof. unfold rewrite_leftmost. now rewrite replace_first_index. Qed.

(** On the names [fromArgs] keeps, the rewritten [-f] is the prefix. *)
Lemma rewrite_leftmost_prefix (rest : string) :
  rewrite_leftmost ("-f" +:+ rest) = "-fno-" +:+ rest.
Proof. destruct rest; reflexivity. Qed.

Lemma transform_emit_entry (name value : string) :
  (if not_default (name, value) then [transform (name, value)] else [])
  = emit (name, value).
Proof.
  unfold not_default, emit, state_of, transform. cbn [fst snd].
  destruct (String.eqb value "[default]"); [reflexivity|].
  destruct (String.eqb value "[enabled]"); [reflexivity|].
  destruct (String.eqb value "[disabled]"); [|reflexivity].
  cbn [negb]. now rewrite replace_first_rewrite_leftmost.
Qed.

Lemma transform_emit (delta : dict) :
  map transform (List.filter not_default delta) = flat_map emit delta.
Proof.
  induction delta as [|[name value] delta IH]; [reflexivity|].
  cbn [List.filter flat_map]. rewrite <- IH, <- transform_emit_entry.
  now destruct (not_default (name, value)).
Qed.

(** C5. When the compiler answers the re-query with the implied set and
    that set knows every flag of [self], [flatten] returns [self.args]
    followed by what the delta entries emit, in the order of [self]'s
    dictionary: nothing for [Default], the bare name for [Enabled], the name
    with its leftmost [-f] rewritten to [-fno-] for [Disabled], the name
    followed at once by the value for a valued entry. The delta is the
    items of [self] whose value differs from the implied one. *)
Theorem flatten_spec
  (run_cc : string -> list string -> cc_outcome) (h : heap) (self : Optimizers)
  (implied : dict) :
  query run_cc (args self) (cc self) = Ok implied ->
  (forall k, In k (dict_keys (deref h (options self))) ->
             exists v, dict_get implied k = Some v) ->
  flatten run_cc h self
  = Ok (args self
        ++ flat_map emit (List.filter (differs implied) (deref h (options self)))).
Proof.
  intros Hq Hkeys. unfold flatten. rewrite Hq. cbn [bind].
  rewrite (diff_items_ok _ _ Hkeys). cbn [bind].
  now rewrite transform_emit.
Qed.

Lemma flatten_spec_witness :
  flatten Sample.gcc Sample.h0 Sample.working
  = Ok (args Sample.working
        ++ flat_map emit
             (List.filter (differs Sample.reach_options)
                (deref Sample.h0 (options Sample.working)))).
Proof.
  apply (flatten_spec Sample.gcc Sample.h0 Sample.working Sample.reach_options).
  - vm_compute. reflexivity.
  - intros k Hk. vm_compute in Hk.
    destruct Hk as [<- | [<- | [<- | []]]]; eexists; vm_compute; reflexivity.
Defined.

Lemma dict_keys_set_new (d : dict) (k v : string) :
  dict_get d k = None -> dict_keys (dict_set d k v) = dict_keys d ++ [k].
Proof.
  unfold dict_keys.
  induction d as [|[k' v'] d IH]; simpl; [reflexivity|].
  case_eqb k' k; [discriminate|].
  intros H. simpl. f_equal. auto.
Qed.

Lemma dict_set_NoDup (d : dict) (k v : string) :
  NoDup (dict_keys d) -> NoDup (dict_keys (dict_set d k v)).
Proof.
  intros Hnd. destruct (dict_get d k) as [o|] eqn:Hk.
  - now rewrite (dict_keys_set _ _ _ _ Hk).
  - rewrite (dict_keys_set_new _ _ _ Hk).
    apply NoDup_app. split; [exact Hnd|]. split.
    + intros x Hx Hx'. apply list_elem_of_In in Hx.
      apply list_elem_of_singleton in Hx'. subst.
      now apply dict_get_None_key in Hk.
    + apply NoDup_singleton.
Qed.

Lemma dict_of_NoDup (pairs : list (string * string)) :
  NoDup (dict_keys (dict_of pairs)).
Proof.
  unfold dict_of.
  assert (Hgen : forall d, NoDup (dict_keys d) ->
            NoDup (dict_keys (fold_left (fun d p => dict_set d (fst p) (snd p)) pairs d))).
  { induction pairs as [|p pairs IH]; intros d Hd; simpl; [exact Hd|].
    apply IH. now apply dict_set_NoDup. }
  apply Hgen. apply NoDup_nil_2.
Qed.

Lemma diff_items_agree (self_options items : dict) :
  (forall k v, In (k, v) items -> dict_get self_options k = Some v) ->
  diff_items self_options items = Ok [].
Proof.
  induction items as [|[k v] items IH]; simpl; intros Hag; [reflexivity|].
  rewrite (Hag k v (or_introl eq_refl)).
  rewrite IH by (intros k' v' Hin; apply Hag; now right).
  simpl. now rewrite String.eqb_refl.
Qed.

(** [S.diff(S)] is empty, whatever the dictionary of [S]. *)
Lemma diff_items_self (d : dict) :
  NoDup (dict_keys d) -> diff_items d d = Ok [].
Proof.
  intros Hnd. apply diff_items_agree. intros k v. now apply dict_get_NoDup.
Qed.

(** C6, as stated, fails: [flatten] returns a one-shot iterator, and
    [fromArgs] handed that iterator keeps it drained; [flatten(S')] then
    asks the compiler about no arguments at all and yields another
    sequence. *)
Lemma flatten_of_drained_iterator_differs :
  ~ (forall (run_cc : string -> list string -> cc_outcome) (h h' : heap)
            (S S' : Optimizers) (L : list string),
        flatten run_cc h S = Ok L ->
        fromArgs_iterator run_cc h L (cc S) = Ok (h', S') ->
        flatten run_cc h' S' = Ok L).
Proof.
  intros H.
  assert (E1 : flatten Sample.gcc Sample.h0 Sample.working
               = Ok ["-O3"; "-ftree-vectorize"; "-fno-unroll-loops"])
    by (vm_compute; reflexivity).
  assert (E2 : fromArgs_iterator Sample.gcc Sample.h0
                 ["-O3"; "-ftree-vectorize"; "-fno-unroll-loops"] (cc Sample.working)
               = Ok (<[fresh (dom Sample.h0)
                       := parse_report (Sample.report Sample.reach_options)]> Sample.h0,
                     mkOptimizers (fresh (dom Sample.h0)) [] "gcc"))
    by reflexivity.
  specialize (H _ _ _ _ _ _ E1 E2). vm_compute in H. discriminate.
Qed.

(** C6, amended. Idempotence of [flatten] under a fixed compiler oracle,
    the flattened sequence being handed to [fromArgs] as a list: when
    [flatten(S)] yields the items [L] and [fromArgs] of the list [L] with
    the compiler of [S] returns [S'], [flatten(S')] yields [L] again. *)
Theorem flatten_idempotent
  (run_cc : string -> list string -> cc_outcome) (h h' : heap)
  (S S' : Optimizers) (L : list string) :
  flatten run_cc h S = Ok L ->
  fromArgs run_cc h L (cc S) = Ok (h', S') ->
  flatten run_cc h' S' = Ok L.
Proof.
  intros _ Hfrom. unfold fromArgs in Hfrom.
  destruct (query run_cc L (cc S)) as [d|e] eqn:Hq; [|discriminate].
  cbn [bind] in Hfrom. injection Hfrom as <- <-.
  unfold flatten. cbn [args cc options]. rewrite Hq. cbn [bind].
  unfold deref. rewrite lookup_insert_eq. cbn [default].
  rewrite diff_items_self.
  - cbn [bind List.filter map]. now rewrite app_nil_r.
  - unfold query in Hq. destruct (run_cc (cc S) L); try discriminate.
    injection Hq as <-. apply dict_of_NoDup.
Qed.

Lemma flatten_idempotent_witness :
  exists h' S',
    fromArgs Sample.gcc Sample.h0
      ["-O3"; "-ftree-vectorize"; "-fno-unroll-loops"] "gcc" = Ok (h', S')
    /\ flatten Sample.gcc h' S'
       = Ok ["-O3"; "-ftree-vectorize"; "-fno-unroll-loops"].
Proof.
  eexists. eexists. split.
  - unfold fromArgs. cbn [bind query Sample.gcc String.eqb Ascii.eqb Bool.eqb].
    reflexivity.
  - apply (flatten_idempotent Sample.gcc Sample.h0 _ Sample.working).
    + vm_compute. reflexivity.
    + reflexivity.
Defined.

(** ** [fromArgs] *)

(** C7, as stated, fails: when the compiler cannot be started, what
    [fromArgs] raises is not a subprocess error and carries no output. *)
Lemma fromArgs_not_started_carries_nothing :
  ~ (forall (run_cc : string -> list string -> cc_outcome) (h : heap)
            (cmd_args : list string) (compiler : string),
        run_cc compiler cmd_args = CcNotStarted ->
        exists e out,
          fromArgs run_cc h cmd_args compiler = Raise e
          /\ is_SubprocessError e = true
          /\ exn_stdout e = Some out).
Proof.
  intros H.
  destruct (H Sample.missing_cc ∅ ["-O2"] "gcc" eq_refl) as (e & out & Hf & Hs & Ho).
  unfold fromArgs, query, Sample.missing_cc in Hf. cbn [bind] in Hf.
  injection Hf as <-. discriminate.
Qed.

(** C7, amended. [fromArgs] fails in both cases. On a non-zero exit status
    it raises the subprocess error of [subprocess.run], which carries the
    captured standard output and error; when the compiler cannot be started
    it raises an [OSError], which is not a subprocess error and carries no
    captured output. *)
Theorem fromArgs_failure
  (run_cc : string -> list string -> cc_outcome) (h : heap)
  (cmd_args : list string) (compiler : string) :
  (forall out err,
      run_cc compiler cmd_args = CcFailed out err ->
      exists e, fromArgs run_cc h cmd_args compiler = Raise e
                /\ is_SubprocessError e = true
                /\ exn_stdout e = Some out /\ exn_stderr e = Some err)
  /\
  (run_cc compiler cmd_args = CcNotStarted ->
   fromArgs run_cc h cmd_args compiler = Raise OSError
   /\ is_SubprocessError OSError = false
   /\ exn_stdout OSError = None /\ exn_stderr OSError = None).
Proof.
  unfold fromArgs, query. split.
  - intros out err ->. eexists. cbn [bind]. repeat split; reflexivity.
  - intros ->. cbn [bind]. repeat split; reflexivity.
Qed.

Lemma fromArgs_failure_witness :
  (exists e, fromArgs Sample.broken_cc Sample.h0 ["-O2"] "gcc" = Raise e
             /\ is_SubprocessError e = true
             /\ exn_stdout e = Some ""
             /\ exn_stderr e = Some "gcc: error: unrecognized command-line option")
  /\
  (fromArgs Sample.missing_cc Sample.h0 ["-O2"] "gcc" = Raise OSError
   /\ is_SubprocessError OSError = false
   /\ exn_stdout OSError = None /\ exn_stderr OSError = None).
Proof.
  split.
  - apply (proj1 (fromArgs_failure Sample.broken_cc Sample.h0 ["-O2"] "gcc")).
    reflexivity.
  - apply (proj2 (fromArgs_failure Sample.missing_cc Sample.h0 ["-O2"] "gcc")).
    reflexivity.
Defined.

(** ** The walk: what it leaves alone *)

Section Frame.

Variable run_cc : string -> list string -> cc_outcome.
Variable utf8_ok : string -> bool.
Variable testOptions : list string -> res unit.

Lemma trial_frame (h h' : heap) (result : Optimizers) (key value : string)
      (r : res unit) :
  trial run_cc utf8_ok testOptions h result key value = (h', r) ->
  (forall l, l <> options result -> h' !! l = h !! l)
  /\ dict_keys (deref h' (options result)) = dict_keys (deref h (options result)).
Proof.
  unfold trial.
  destruct (dict_get (deref h (options result)) key) as [original|] eqn:Hk.
  2:{ intros [= <- <-]. auto. }
  assert (Hk1 : dict_get (deref (store h (options result) key value)
                        (options result)) key = Some value).
  { rewrite deref_store_eq. eapply dict_get_set_eq; eauto. }
  assert (Hkeys1 : dict_keys (deref (store h (options result) key value)
                                (options result))
                   = dict_keys (deref h (options result))).
  { rewrite deref_store_eq. eapply dict_keys_set; eauto. }
  destruct (try_body _ _ _ _) as [u|e].
  - intros [= <- <-]. split; [|exact Hkeys1].
    intros l Hl. now apply lookup_store_ne.
  - destruct (is_SubprocessError e); intros [= <- <-].
    + split.
      * intros l Hl. rewrite !lookup_store_ne; auto.
      * rewrite deref_store_eq, (dict_keys_set _ _ _ _ Hk1). exact Hkeys1.
    + split; [|exact Hkeys1]. intros l Hl. now apply lookup_store_ne.
Qed.

Lemma regress_loop_frame (base result : Optimizers) (items : dict) :
  options result = options base ->
  forall (h h' : heap) (r : res unit),
    regress_loop run_cc utf8_ok testOptions h base result items = (h', r) ->
    (forall l, l <> options base -> h' !! l = h !! l)
    /\ dict_keys (deref h' (options base)) = dict_keys (deref h (options base)).
Proof.
  intros Hopt. induction items as [|[key value] items IH]; intros h h' r; simpl.
  - intros [= <- <-]. auto.
  - destruct (dict_get (deref h (options base)) key) as [current|].
    2:{ intros [= <- <-]. auto. }
    destruct (String.eqb current value); [apply IH|].
    destruct (trial _ _ _ h result key value) as [h1 [u|e]] eqn:Ht;
      apply trial_frame in Ht; rewrite Hopt in Ht; destruct Ht as [Hf Hkeys].
    + intros Hl. apply IH in Hl. destruct Hl as [Hf' Hkeys']. split.
      * intros l Hl. rewrite Hf', Hf; auto.
      * congruence.
    + intros [= <- <-]. auto.
Qed.

End Frame.

(** ** [regress] and the dictionary of [base] *)

(** C2, as stated, fails: an accepted trial is written into [base.options]. *)
Lemma regress_changes_base_options :
  ~ (forall (run_cc : string -> list string -> cc_outcome)
            (utf8_ok : string -> bool) (testOptions : list string -> res unit)
            (h h' : heap) (base reach r : Optimizers),
        regress run_cc utf8_ok testOptions h base reach = (h', Ok r) ->
        deref h' (options base) = deref h (options base)).
Proof.
  intros H.
  assert (E : regress Sample.gcc Sample.utf8_any Sample.accept
                Sample.h0 Sample.base Sample.reach
              = (<[0 := Sample.reach_options]> Sample.h0, Ok Sample.working))
    by (vm_compute; reflexivity).
  apply H in E. vm_compute in E. discriminate.
Qed.

(** C2, amended. The working set of [regress] is built on [base.options]
    itself, not on a copy: the set returned has [base]'s dictionary as its
    options (with [reach]'s arguments and [base]'s compiler), so after
    [regress] returns [base.options] is the result's options. The walk
    writes to no other dictionary, and [base.options] keeps its keys and
    their order. *)
Theorem regress_shares_base_options
  (run_cc : string -> list string -> cc_outcome)
  (utf8_ok : string -> bool) (testOptions : list string -> res unit)
  (h h' : heap) (base reach r : Optimizers) :
  regress run_cc utf8_ok testOptions h base reach = (h', Ok r) ->
  options r = options base /\ args r = args reach /\ cc r = cc base
  /\ deref h' (options r) = deref h' (options base)
  /\ (forall l, l <> options base -> h' !! l = h !! l)
  /\ dict_keys (deref h' (options base)) = dict_keys (deref h (options base)).
Proof.
  unfold regress.
  destruct (regress_loop _ _ _ h base _ _) as [h1 [u|e]] eqn:Hloop;
    intros [= <- <-].
  apply regress_loop_frame in Hloop; [|reflexivity].
  cbn [options args cc]. tauto.
Qed.

Lemma regress_shares_base_options_witness :
  options Sample.working = options Sample.base
  /\ args Sample.working = args Sample.reach
  /\ cc Sample.working = cc Sample.base
  /\ deref (<[0 := Sample.reach_options]> Sample.h0) (options Sample.working)
     = deref (<[0 := Sample.reach_options]> Sample.h0) (options Sample.base)
  /\ (forall l, l <> options Sample.base ->
                (<[0 := Sample.reach_options]> Sample.h0) !! l = Sample.h0 !! l)
  /\ dict_keys (deref (<[0 := Sample.reach_options]> Sample.h0) (options Sample.base))
     = dict_keys (deref Sample.h0 (options Sample.base)).
Proof.
  apply (regress_shares_base_options Sample.gcc Sample.utf8_any Sample.accept
           Sample.h0 _ Sample.base Sample.reach Sample.working).
  vm_compute. reflexivity.
Defined.

(** ** The walk, one trial at a time *)

Section Trials.

Variable run_cc : string -> list string -> cc_outcome.
Variable utf8_ok : string -> bool.
Variable testOptions : list string -> res unit.

Lemma log_fail_PredicateFailure (e : exn) :
  PredicateFailure utf8_ok e -> log_fail utf8_ok e = Ok tt.
Proof.
  intros [_ (out & Hout & Hutf)]. unfold log_fail. now rewrite Hout, Hutf.
Qed.

Lemma trial_accepted (h : heap) (result : Optimizers) (key value original : string)
      (u : unit) :
  dict_get (deref h (options result)) key = Some original ->
  try_body run_cc testOptions (store h (options result) key value) result = Ok u ->
  trial run_cc utf8_ok testOptions h result key value
  = (store h (options result) key value, Ok tt).
Proof. intros Hk Hbody. unfold trial. now rewrite Hk, Hbody. Qed.

Lemma trial_reverted (h : heap) (result : Optimizers) (key value original : string)
      (e : exn) :
  dict_get (deref h (options result)) key = Some original ->
  try_body run_cc testOptions (store h (options result) key value) result = Raise e ->
  is_SubprocessError e = true ->
  trial run_cc utf8_ok testOptions h result key value = (h, log_fail utf8_ok e).
Proof.
  intros Hk Hbody Hsub. unfold trial. rewrite Hk, Hbody, Hsub.
  now rewrite (store_back _ _ _ _ _ Hk).
Qed.

Lemma trial_propagates (h : heap) (result : Optimizers) (key value original : string)
      (e : exn) :
  dict_get (deref h (options result)) key = Some original ->
  try_body run_cc testOptions (store h (options result) key value) result = Raise e ->
  is_SubprocessError e = false ->
  trial run_cc utf8_ok testOptions h result key value
  = (store h (options result) key value, Raise e).
Proof. intros Hk Hbody Hsub. unfold trial. now rewrite Hk, Hbody, Hsub. Qed.

(** The loop at an item whose value differs from [base]'s. *)
Lemma regress_loop_trial (h : heap) (base result : Optimizers)
      (key value original : string) (rest : dict) :
  dict_get (deref h (options base)) key = Some original ->
  original <> value ->
  regress_loop run_cc utf8_ok testOptions h base result ((key, value) :: rest)
  = match trial run_cc utf8_ok testOptions h result key value with
    | (h', Ok _) => regress_loop run_cc utf8_ok testOptions h' base result rest
    | (h', Raise e) => (h', Raise e)
    end.
Proof.
  intros Hk Hne. cbn [regress_loop]. rewrite Hk.
  apply eqb_string_false in Hne. now rewrite Hne.
Qed.

Lemma regress_loop_app (base result : Optimizers) (pre post : dict) :
  forall h : heap,
    regress_loop run_cc utf8_ok testOptions h base result (pre ++ post)
    = match regress_loop run_cc utf8_ok testOptions h base result pre with
      | (h1, Ok _) => regress_loop run_cc utf8_ok testOptions h1 base result post
      | (h1, Raise e) => (h1, Raise e)
      end.
Proof.
  induction pre as [|[key value] pre IH]; intros h; [reflexivity|].
  cbn [app regress_loop].
  destruct (dict_get (deref h (options base)) key) as [current|]; [|reflexivity].
  destruct (String.eqb current value); [apply IH|].
  destruct (trial _ _ _ h result key value) as [h' [u|e]]; [apply IH | reflexivity].
Qed.

End Trials.

(** ** Failures during a trial *)

(** C1, as stated, fails: a compiler failure raised by the re-query of a
    trial is a subprocess error, and the handler of [regress] catches it. *)
Lemma compiler_failure_in_trial_is_caught :
  ~ (forall (run_cc : string -> list string -> cc_outcome)
            (utf8_ok : string -> bool) (testOptions : list string -> res unit)
            (h : heap) (base reach : Optimizers) (e : exn)
            (key value : string) (rest : dict),
        diff h base reach = Ok ((key, value) :: rest) ->
        query run_cc (args reach) (cc base) = Raise e ->
        exists h', regress run_cc utf8_ok testOptions h base reach = (h', Raise e)).
Proof.
  intros H.
  destruct (H Sample.broken_cc Sample.utf8_any Sample.accept
              Sample.h0 Sample.base Sample.reach
              (CalledProcessError (Some "")
                 (Some "gcc: error: unrecognized command-line option"))
              "-ftree-vectorize" "[disabled]" [("-funroll-loops", "[enabled]")])
    as [h' Hr]; [vm_compute; reflexivity | reflexivity |].
  vm_compute in Hr. discriminate.
Qed.

(** C1, amended. At a trial of [regress] (an item whose value differs from
    the working set's): a predicate failure, that is a subprocess error
    whose captured output can be logged, is handled locally, the tentative
    change is reverted and the walk goes on from the store as it was; a
    compiler failure by non-zero exit during the re-query of [flatten] is a
    subprocess error too and, its captured output decoding, is handled in
    the same way; a re-query that fails with an error that is not a
    subprocess error, because the compiler cannot be started ([OSError]) or
    its report is not UTF-8 ([UnicodeDecodeError]), is fatal: the error
    leaves [regress], the tentative value left in place. *)
Theorem trial_failure_semantics
  (run_cc : string -> list string -> cc_outcome)
  (utf8_ok : string -> bool) (testOptions : list string -> res unit)
  (h : heap) (base result : Optimizers) (key value original : string)
  (rest : dict) :
  options result = options base ->
  dict_get (deref h (options base)) key = Some original ->
  original <> value ->
  (forall argv e,
      flatten run_cc (store h (options base) key value) result = Ok argv ->
      testOptions argv = Raise e ->
      PredicateFailure utf8_ok e ->
      regress_loop run_cc utf8_ok testOptions h base result ((key, value) :: rest)
      = regress_loop run_cc utf8_ok testOptions h base result rest)
  /\
  (forall out err,
      run_cc (cc result) (args result) = CcFailed out err ->
      utf8_ok out = true ->
      regress_loop run_cc utf8_ok testOptions h base result ((key, value) :: rest)
      = regress_loop run_cc utf8_ok testOptions h base result rest)
  /\
  (run_cc (cc result) (args result) = CcNotStarted ->
   regress_loop run_cc utf8_ok testOptions h base result ((key, value) :: rest)
   = (store h (options base) key value, Raise OSError))
  /\
  (run_cc (cc result) (args result) = CcUndecodable ->
   regress_loop run_cc utf8_ok testOptions h base result ((key, value) :: rest)
   = (store h (options base) key value, Raise UnicodeDecodeError)).
Proof.
  intros Hopt Hk Hne.
  rewrite (regress_loop_trial _ _ _ _ _ _ _ _ _ _ Hk Hne).
  rewrite <- Hopt in *. repeat split.
  - intros argv e Hflat Htest Hpf.
    rewrite (trial_reverted _ _ _ _ _ _ _ _ e Hk).
    + now rewrite (log_fail_PredicateFailure _ _ Hpf).
    + unfold try_body. now rewrite Hflat.
    + apply Hpf.
  - intros out err Hcc Hutf.
    rewrite (trial_reverted _ _ _ _ _ _ _ _
               (CalledProcessError (Some out) (Some err)) Hk).
    + unfold log_fail. cbn [exn_stdout]. now rewrite Hutf.
    + unfold try_body, flatten, query. now rewrite Hcc.
    + reflexivity.
  - intros Hcc.
    rewrite (trial_propagates _ _ _ _ _ _ _ _ OSError Hk); [reflexivity| |reflexivity].
    unfold try_body, flatten, query. now rewrite Hcc.
  - intros Hcc.
    rewrite (trial_propagates _ _ _ _ _ _ _ _ UnicodeDecodeError Hk);
      [reflexivity| |reflexivity].
    unfold try_body, flatten, query. now rewrite Hcc.
Qed.

Lemma trial_failure_semantics_witness :
  regress_loop Sample.gcc Sample.utf8_any Sample.reject Sample.h0
    Sample.base Sample.working
    (("-ftree-vectorize", "[disabled]") :: [("-funroll-loops", "[enabled]")])
  = regress_loop Sample.gcc Sample.utf8_any Sample.reject Sample.h0
      Sample.base Sample.working [("-funroll-loops", "[enabled]")]
  /\
  regress_loop Sample.broken_cc Sample.utf8_any Sample.accept Sample.h0
    Sample.base Sample.working
    (("-ftree-vectorize", "[disabled]") :: [("-funroll-loops", "[enabled]")])
  = regress_loop Sample.broken_cc Sample.utf8_any Sample.accept Sample.h0
      Sample.base Sample.working [("-funroll-loops", "[enabled]")]
  /\
  regress_loop Sample.missing_cc Sample.utf8_any Sample.accept Sample.h0
    Sample.base Sample.working
    (("-ftree-vectorize", "[disabled]") :: [("-funroll-loops", "[enabled]")])
  = (store Sample.h0 (options Sample.base) "-ftree-vectorize" "[disabled]",
     Raise OSError)
  /\
  regress_loop Demo.garbled_cc Sample.utf8_any Sample.accept Sample.h0
    Sample.base Sample.working
    (("-ftree-vectorize", "[disabled]") :: [("-funroll-loops", "[enabled]")])
  = (store Sample.h0 (options Sample.base) "-ftree-vectorize" "[disabled]",
     Raise UnicodeDecodeError).
Proof.
  split; [|split; [|split]].
  - apply (proj1 (trial_failure_semantics Sample.gcc Sample.utf8_any Sample.reject
                    Sample.h0 Sample.base Sample.working
                    "-ftree-vectorize" "[disabled]" "[enabled]" _
                    eq_refl eq_refl ltac:(discriminate))
             ["-O3"; "-fno-unroll-loops"]
             (CalledProcessError (Some "FAILED") None)).
    + vm_compute. reflexivity.
    + reflexivity.
    + split; [reflexivity|]. exists "FAILED". split; reflexivity.
  - apply (proj1 (proj2 (trial_failure_semantics Sample.broken_cc Sample.utf8_any
                           Sample.accept Sample.h0 Sample.base Sample.working
                           "-ftree-vectorize" "[disabled]" "[enabled]" _
                           eq_refl eq_refl ltac:(discriminate)))
             "" "gcc: error: unrecognized command-line option");
      reflexivity.
  - apply (proj1 (proj2 (proj2 (trial_failure_semantics Sample.missing_cc
                                  Sample.utf8_any Sample.accept Sample.h0
                                  Sample.base Sample.working
                                  "-ftree-vectorize" "[disabled]" "[enabled]" _
                                  eq_refl eq_refl ltac:(discriminate))))).
    reflexivity.
  - apply (proj2 (proj2 (proj2 (trial_failure_semantics Demo.garbled_cc
                                  Sample.utf8_any Sample.accept Sample.h0
                                  Sample.base Sample.working
                                  "-ftree-vectorize" "[disabled]" "[enabled]" _
                                  eq_refl eq_refl ltac:(discriminate))))).
    reflexivity.
Defined.

(** ** Timeouts *)

(** A timeout whose exception carries captured output is a predicate
    failure like any other: reverted, and the walk goes on. *)
Lemma timeout_with_output_reverts
  (run_cc : string -> list string -> cc_outcome)
  (utf8_ok : string -> bool) (testOptions : list string -> res unit)
  (h : heap) (base result : Optimizers) (key value original out : string)
  (rest : dict) (argv : list string) :
  options result = options base ->
  dict_get (deref h (options base)) key = Some original ->
  original <> value ->
  flatten run_cc (store h (options base) key value) result = Ok argv ->
  testOptions argv = Raise (TimeoutExpired (Some out)) ->
  utf8_ok out = true ->
  regress_loop run_cc utf8_ok testOptions h base result ((key, value) :: rest)
  = regress_loop run_cc utf8_ok testOptions h base result rest.
Proof.
  intros Hopt Hk Hne Hflat Htest Hutf.
  rewrite (regress_loop_trial _ _ _ _ _ _ _ _ _ _ Hk Hne).
  rewrite <- Hopt in *.
  rewrite (trial_reverted _ _ _ _ _ _ _ _ (TimeoutExpired (Some out)) Hk).
  - unfold log_fail. cbn [exn_stdout]. now rewrite Hutf.
  - unfold try_body. now rewrite Hflat.
  - reflexivity.
Qed.

(** When the timeout expires before the command has written anything,
    [e.stdout] is [None]: the change is reverted, and then the log line of
    the handler raises [AttributeError], which leaves [regress]. *)
Lemma timeout_without_output_raises
  (run_cc : string -> list string -> cc_outcome)
  (utf8_ok : string -> bool) (testOptions : list string -> res unit)
  (h : heap) (base result : Optimizers) (key value original : string)
  (rest : dict) (argv : list string) :
  options result = options base ->
  dict_get (deref h (options base)) key = Some original ->
  original <> value ->
  flatten run_cc (store h (options base) key value) result = Ok argv ->
  testOptions argv = Raise (TimeoutExpired None) ->
  regress_loop run_cc utf8_ok testOptions h base result ((key, value) :: rest)
  = (h, Raise AttributeError).
Proof.
  intros Hopt Hk Hne Hflat Htest.
  rewrite (regress_loop_trial _ _ _ _ _ _ _ _ _ _ Hk Hne).
  rewrite <- Hopt in *.
  rewrite (trial_reverted _ _ _ _ _ _ _ _ (TimeoutExpired None) Hk).
  - reflexivity.
  - unfold try_body. now rewrite Hflat.
  - reflexivity.
Qed.

(** C8. The code at a predicate command that runs into the timeout without
    output: the first trial is reverted (the store is as it was), but the
    run is aborted by an [AttributeError] instead of going on. *)
Theorem timeout_without_output_aborts :
  regress Sample.gcc Sample.utf8_any (testPredicate Sample.words Sample.hangs)
    Sample.h0 Sample.base Sample.reach
  = (Sample.h0, Raise AttributeError).
Proof. vm_compute. reflexivity. Qed.

(** ** Exceptions of the predicate that are not subprocess errors *)

(** C10. When, at some trial of the walk, the predicate raises an exception
    that is not a subprocess error, [regress] ends with that exception and
    the working dictionary, which is [base]'s, is left holding the
    tentative value of the trial. *)
Theorem predicate_crash_propagates
  (run_cc : string -> list string -> cc_outcome)
  (utf8_ok : string -> bool) (testOptions : list string -> res unit)
  (h h1 : heap) (base reach : Optimizers) (pre post : dict)
  (key value original : string) (argv : list string) (e : exn) :
  let result := mkOptimizers (options base) (args reach) (cc base) in
  deref h (options reach) = pre ++ (key, value) :: post ->
  regress_loop run_cc utf8_ok testOptions h base result pre = (h1, Ok tt) ->
  dict_get (deref h1 (options base)) key = Some original ->
  original <> value ->
  flatten run_cc (store h1 (options base) key value) result = Ok argv ->
  testOptions argv = Raise e ->
  is_SubprocessError e = false ->
  regress run_cc utf8_ok testOptions h base reach
  = (store h1 (options base) key value, Raise e)
  /\ dict_get (deref (store h1 (options base) key value) (options base)) key
     = Some value.
Proof.
  intros result Hitems Hpre Hk Hne Hflat Htest Hsub. split.
  - unfold regress. fold result. rewrite Hitems, regress_loop_app, Hpre.
    rewrite (regress_loop_trial _ _ _ _ _ _ _ _ _ _ Hk Hne).
    rewrite (trial_propagates _ _ _ _ result _ _ _ e Hk); [reflexivity| |exact Hsub].
    unfold try_body. cbn [options result]. now rewrite Hflat.
  - rewrite deref_store_eq. eapply dict_get_set_eq; eauto.
Qed.

Lemma predicate_crash_propagates_witness :
  regress Sample.gcc Sample.utf8_any Sample.crash Sample.h0 Sample.base Sample.reach
  = (store Sample.h0 (options Sample.base) "-ftree-vectorize" "[disabled]",
     Raise IndexError)
  /\ dict_get (deref (store Sample.h0 (options Sample.base)
                        "-ftree-vectorize" "[disabled]")
                 (options Sample.base)) "-ftree-vectorize"
     = Some "[disabled]".
Proof.
  apply (predicate_crash_propagates Sample.gcc Sample.utf8_any Sample.crash
           Sample.h0 Sample.h0 Sample.base Sample.reach []
           [("-funroll-loops", "[enabled]"); ("-finline-limit", "=600")]
           "-ftree-vectorize" "[disabled]" "[enabled]"
           ["-O3"; "-fno-unroll-loops"] IndexError).
  - reflexivity.
  - reflexivity.
  - reflexivity.
  - discriminate.
  - vm_compute. reflexivity.
  - reflexivity.
  - reflexivity.
Defined.

(** ** How [testPredicate] comes to raise such exceptions *)

Section PredicateFacts.

Variable tokenise : list string -> res (list string).
Variable run_cmd : list string -> run_outcome.

(** An empty token stream is one empty command vector. *)
Lemma testPredicate_no_tokens (opts : list string) :
  tokenise opts = Ok [] ->
  testPredicate tokenise run_cmd opts = Raise IndexError
  /\ is_SubprocessError IndexError = false.
Proof. intros H. unfold testPredicate. rewrite H. split; reflexivity. Qed.

Lemma split_cmds_trailing (tokens : list string) :
  forall (cmds : list (list string)) (argv : list string),
    split_cmds cmds argv (tokens ++ [";"])
    = split_cmds cmds argv tokens ++ [[]].
Proof.
  induction tokens as [|token tokens IH]; intros cmds argv; [reflexivity|].
  cbn [app split_cmds]. destruct (String.eqb token ";"); apply IH.
Qed.

Lemma run_all_app (cmds cmds' : list (list string)) :
  run_all run_cmd (cmds ++ cmds')
  = do u <- run_all run_cmd cmds; run_all run_cmd cmds'.
Proof.
  induction cmds as [|cmd cmds IH]; [reflexivity|].
  cbn [app run_all]. destruct (subprocess_run run_cmd cmd); [exact IH | reflexivity].
Qed.

(** X19. A stream that ends with [';'] ends with an empty command vector:
    the predicate never returns normally, and raises [IndexError] when
    the commands before it succeed. *)
Lemma testPredicate_trailing_semicolon (opts tokens : list string) :
  tokenise opts = Ok (tokens ++ [";"]) ->
  exists e, testPredicate tokenise run_cmd opts = Raise e
            /\ (run_all run_cmd (split_cmds [] [] tokens) = Ok tt ->
                e = IndexError).
Proof.
  intros H. unfold testPredicate. rewrite H. cbn [bind].
  rewrite split_cmds_trailing, run_all_app.
  destruct (run_all run_cmd (split_cmds [] [] tokens)) as [u|e]; cbn [bind].
  - exists IndexError. split; reflexivity.
  - exists e. split; [reflexivity | discriminate].
Qed.

(** A command whose executable does not exist. *)
Lemma subprocess_run_not_started (cmd : list string) :
  cmd <> [] -> run_cmd cmd = NotStarted ->
  subprocess_run run_cmd cmd = Raise OSError
  /\ is_SubprocessError OSError = false.
Proof.
  intros Hne H. destruct cmd; [congruence|].
  unfold subprocess_run. rewrite H. split; reflexivity.
Qed.

(** A timeout is a subprocess error, whatever it carries. *)
Lemma subprocess_run_timeout (cmd : list string) (out : option string) :
  cmd <> [] -> run_cmd cmd = TimedOut out ->
  subprocess_run run_cmd cmd = Raise (TimeoutExpired out)
  /\ is_SubprocessError (TimeoutExpired out) = true.
Proof.
  intros Hne H. destruct cmd; [congruence|].
  unfold subprocess_run. rewrite H. split; reflexivity.
Qed.

End PredicateFacts.

Example sample_split :
  split_cmds [] [] ["make"; "test"; ";"; "./test"; ";"]
  = [["make"; "test"]; ["./test"]; []].
Proof. reflexivity. Qed.

(** ** The walk under a constant predicate *)

Lemma dict_get_not_key (d : dict) (k : string) :
  ~ In k (dict_keys d) -> dict_get d k = None.
Proof.
  intros Hn. destruct (dict_get d k) eqn:E; [|reflexivity].
  now apply dict_get_Some_key in E.
Qed.

Lemma filter_differs_key (self_options items : dict) (k : string) :
  In k (dict_keys (List.filter (differs self_options) items)) ->
  In k (dict_keys items).
Proof.
  unfold dict_keys. rewrite !in_map_iff.
  intros [p [Hp Hin]]. apply filter_In in Hin. exists p. tauto.
Qed.

Lemma differs_not_key (self_options items : dict) (k v sv : string) :
  ~ In k (dict_keys (List.filter (differs self_options) items)) ->
  In (k, v) items -> dict_get self_options k = Some sv -> sv = v.
Proof.
  intros Hn Hin Hsv.
  destruct (differs self_options (k, v)) eqn:Hd.
  - exfalso. apply Hn. unfold dict_keys. apply in_map_iff.
    exists (k, v). split; [reflexivity|]. apply filter_In. auto.
  - unfold differs in Hd. cbn [fst snd] in Hd. rewrite Hsv in Hd.
    apply negb_false_iff in Hd. now apply eqb_string_true.
Qed.

Section Constant.

Variable run_cc : string -> list string -> cc_outcome.
Variable utf8_ok : string -> bool.
Variable testOptions : list string -> res unit.
Variables base result : Optimizers.
Variable implied : dict.

Hypothesis Hopt : options result = options base.
Hypothesis Hquery : query run_cc (args result) (cc result) = Ok implied.

Lemma flatten_defined (h : heap) :
  (forall k, In k (dict_keys (deref h (options base))) ->
             exists v, dict_get implied k = Some v) ->
  exists argv, flatten run_cc h result = Ok argv.
Proof.
  intros Hkeys. unfold flatten. rewrite Hquery, Hopt. cbn [bind].
  rewrite (diff_items_ok _ _ Hkeys). cbn [bind]. eauto.
Qed.

Lemma flatten_defined_store (h : heap) (key value original : string) :
  (forall k, In k (dict_keys (deref h (options base))) ->
             exists v, dict_get implied k = Some v) ->
  dict_get (deref h (options base)) key = Some original ->
  exists argv, flatten run_cc (store h (options base) key value) result = Ok argv.
Proof.
  intros Hkeys Hk. apply flatten_defined.
  rewrite deref_store_eq, (dict_keys_set _ _ _ _ Hk). exact Hkeys.
Qed.

(** Every trial rejected: the loop leaves the store as it found it. *)
Lemma regress_loop_all_rejected (h : heap) (items : dict) :
  (forall argv, exists e, testOptions argv = Raise e /\ PredicateFailure utf8_ok e) ->
  (forall k, In k (dict_keys (deref h (options base))) ->
             exists v, dict_get implied k = Some v) ->
  (forall k, In k (dict_keys items) ->
             exists v, dict_get (deref h (options base)) k = Some v) ->
  regress_loop run_cc utf8_ok testOptions h base result items = (h, Ok tt).
Proof.
  intros Hpred Himpl. induction items as [|[key value] items IH]; intros Hkeys.
  - reflexivity.
  - destruct (Hkeys key (or_introl eq_refl)) as [current Hk].
    assert (Hrest : regress_loop run_cc utf8_ok testOptions h base result items
                    = (h, Ok tt))
      by (apply IH; intros k Hin; apply Hkeys; now right).
    case_eqb current value.
    + cbn [regress_loop]. rewrite Hk. subst. now rewrite String.eqb_refl.
    + rewrite (regress_loop_trial _ _ _ _ _ _ _ _ _ _ Hk E).
      destruct (flatten_defined_store h key value current Himpl Hk) as [argv Hflat].
      destruct (Hpred argv) as [e [He Hpf]].
      rewrite <- Hopt in *.
      rewrite (trial_reverted _ _ _ _ _ _ _ _ e Hk).
      * now rewrite (log_fail_PredicateFailure _ _ Hpf).
      * unfold try_body. now rewrite Hflat.
      * apply Hpf.
Qed.

(** Every trial accepted: the dictionary of [base] takes the value of
    every item of the walk and keeps the rest. *)
Lemma regress_loop_all_accepted (items : dict) :
  (forall argv, testOptions argv = Ok tt) ->
  forall h : heap,
    NoDup (dict_keys items) ->
    (forall k, In k (dict_keys (deref h (options base))) ->
               exists v, dict_get implied k = Some v) ->
    (forall k, In k (dict_keys items) ->
               exists v, dict_get (deref h (options base)) k = Some v) ->
    exists h',
      regress_loop run_cc utf8_ok testOptions h base result items = (h', Ok tt)
      /\ forall k, dict_get (deref h' (options base)) k
                   = match dict_get items k with
                     | Some v => Some v
                     | None => dict_get (deref h (options base)) k
                     end.
Proof.
  intros Hpred. induction items as [|[key value] items IH]; intros h Hnd Himpl Hkeys.
  - exists h. split; reflexivity.
  - destruct (Hkeys key (or_introl eq_refl)) as [current Hk].
    inversion Hnd as [|? ? Hfresh Hnd']; subst.
    assert (Hnone : dict_get items key = None).
    { apply dict_get_not_key. intros Hin. apply Hfresh. now apply list_elem_of_In. }
    assert (Hstep : exists h1,
               regress_loop run_cc utf8_ok testOptions h base result ((key, value) :: items)
               = regress_loop run_cc utf8_ok testOptions h1 base result items
               /\ dict_get (deref h1 (options base)) key = Some value
               /\ (forall k, key <> k ->
                     dict_get (deref h1 (options base)) k
                     = dict_get (deref h (options base)) k)
               /\ dict_keys (deref h1 (options base))
                  = dict_keys (deref h (options base))).
    { case_eqb current value.
      - exists h. subst. cbn [regress_loop]. rewrite Hk, String.eqb_refl. auto.
      - exists (store h (options base) key value).
        rewrite (regress_loop_trial _ _ _ _ _ _ _ _ _ _ Hk E).
        destruct (flatten_defined_store h key value current Himpl Hk) as [argv Hflat].
        rewrite deref_store_eq. repeat split.
        + rewrite <- Hopt in *.
          rewrite (trial_accepted _ _ _ _ _ _ _ current tt Hk); [reflexivity|].
          unfold try_body. rewrite Hflat. apply Hpred.
        + eapply dict_get_set_eq; eauto.
        + intros k Hne. now apply dict_get_set_ne.
        + eapply dict_keys_set; eauto. }
    destruct Hstep as (h1 & Hrun & Hat & Hoff & Hsame).
    destruct (IH h1 Hnd') as (h' & Hloop & Hfinal).
    + now rewrite Hsame.
    + intros k Hin. destruct (String.eq_dec key k) as [<- | Hne]; [eauto|].
      rewrite (Hoff k Hne). apply Hkeys. now right.
    + exists h'. split; [now rewrite Hrun|].
      intros k. rewrite Hfinal. cbn [dict_get].
      case_eqb key k.
      * subst. now rewrite Hnone.
      * now rewrite (Hoff k E).
Qed.

End Constant.

(** Revert correctness for failures that can be logged. Let every flag of
    [reach] be a flag of [base],
    the compiler answer the re-query for [reach]'s arguments with a set that
    knows every flag of [base], and the predicate fail (raise a predicate
    failure) whenever it is called. Then [regress] returns, the store is
    what it was, and the options of the set returned are [base.options]: in
    particular they agree with [base.options] on every flag of [reach]. *)
Theorem revert_correctness
  (run_cc : string -> list string -> cc_outcome)
  (utf8_ok : string -> bool) (testOptions : list string -> res unit)
  (h : heap) (base reach : Optimizers) (implied : dict) :
  (forall k, In k (dict_keys (deref h (options reach))) ->
             exists v, dict_get (deref h (options base)) k = Some v) ->
  query run_cc (args reach) (cc base) = Ok implied ->
  (forall k, In k (dict_keys (deref h (options base))) ->
             exists v, dict_get implied k = Some v) ->
  (forall argv, exists e, testOptions argv = Raise e /\ PredicateFailure utf8_ok e) ->
  exists h' r,
    regress run_cc utf8_ok testOptions h base reach = (h', Ok r)
    /\ h' = h
    /\ deref h' (options r) = deref h (options base)
    /\ forall k, In k (dict_keys (deref h (options reach))) ->
                 dict_get (deref h' (options r)) k
                 = dict_get (deref h (options base)) k.
Proof.
  intros Hkeys Hq Himpl Hpred.
  exists h, (mkOptimizers (options base) (args reach) (cc base)).
  unfold regress.
  rewrite (regress_loop_all_rejected run_cc utf8_ok testOptions base
             (mkOptimizers (options base) (args reach) (cc base)) implied
             eq_refl Hq h _ Hpred Himpl Hkeys).
  cbn [options]. auto.
Qed.

Lemma revert_correctness_witness :
  exists h' r,
    regress Sample.gcc Sample.utf8_any Sample.reject Sample.h0 Sample.base Sample.reach
    = (h', Ok r)
    /\ h' = Sample.h0
    /\ deref h' (options r) = deref Sample.h0 (options Sample.base)
    /\ forall k, In k (dict_keys (deref Sample.h0 (options Sample.reach))) ->
                 dict_get (deref h' (options r)) k
                 = dict_get (deref Sample.h0 (options Sample.base)) k.
Proof.
  apply (revert_correctness Sample.gcc Sample.utf8_any Sample.reject
           Sample.h0 Sample.base Sample.reach Sample.reach_options).
  - intros k Hk. vm_compute in Hk.
    destruct Hk as [<- | [<- | [<- | []]]]; eexists; vm_compute; reflexivity.
  - reflexivity.
  - intros k Hk. vm_compute in Hk.
    destruct Hk as [<- | [<- | [<- | []]]]; eexists; vm_compute; reflexivity.
  - intros argv. exists (CalledProcessError (Some "FAILED") None).
    split; [reflexivity|]. split; [reflexivity|].
    exists "FAILED". split; reflexivity.
Defined.

(** C4. Accept-all correctness. Let [reach.options] be a dictionary (no key
    twice), every flag of [reach] be a flag of [base], the compiler answer
    the re-query with a set that knows every flag of [base], and the
    predicate return normally whenever it is called. Then [regress]
    returns; for every key of [base.diff(reach)] the options of the set
    returned have [reach]'s value, and every other key keeps [base]'s. *)
Theorem accept_all_correctness
  (run_cc : string -> list string -> cc_outcome)
  (utf8_ok : string -> bool) (testOptions : list string -> res unit)
  (h : heap) (base reach : Optimizers) (implied : dict) :
  NoDup (dict_keys (deref h (options reach))) ->
  (forall k, In k (dict_keys (deref h (options reach))) ->
             exists v, dict_get (deref h (options base)) k = Some v) ->
  query run_cc (args reach) (cc base) = Ok implied ->
  (forall k, In k (dict_keys (deref h (options base))) ->
             exists v, dict_get implied k = Some v) ->
  (forall argv, testOptions argv = Ok tt) ->
  exists h' r delta,
    regress run_cc utf8_ok testOptions h base reach = (h', Ok r)
    /\ diff h base reach = Ok delta
    /\ (forall k, In k (dict_keys delta) ->
                  dict_get (deref h' (options r)) k
                  = dict_get (deref h (options reach)) k)
    /\ (forall k, ~ In k (dict_keys delta) ->
                  dict_get (deref h' (options r)) k
                  = dict_get (deref h (options base)) k).
Proof.
  intros Hnd Hkeys Hq Himpl Hpred.
  destruct (regress_loop_all_accepted run_cc utf8_ok testOptions base
              (mkOptimizers (options base) (args reach) (cc base)) implied
              eq_refl Hq _ Hpred h Hnd Himpl Hkeys) as (h' & Hloop & Hfinal).
  exists h', (mkOptimizers (options base) (args reach) (cc base)),
    (List.filter (differs (deref h (options base))) (deref h (options reach))).
  unfold regress. rewrite Hloop. cbn [options].
  split; [reflexivity|]. split; [now apply diff_items_ok|]. split.
  - intros k Hin. apply filter_differs_key in Hin.
    rewrite Hfinal. destruct (dict_get_key _ _ Hin) as [v ->]. reflexivity.
  - intros k Hn. rewrite Hfinal.
    destruct (dict_get (deref h (options reach)) k) as [v|] eqn:Hv; [|reflexivity].
    assert (Hin : In k (dict_keys (deref h (options reach))))
      by (eapply dict_get_Some_key; eauto).
    destruct (Hkeys k Hin) as [sv Hsv]. rewrite Hsv. f_equal. symmetry.
    eapply differs_not_key; eauto. now apply dict_get_In.
Qed.

Lemma accept_all_correctness_witness :
  exists h' r delta,
    regress Sample.gcc Sample.utf8_any Sample.accept Sample.h0 Sample.base Sample.reach
    = (h', Ok r)
    /\ diff Sample.h0 Sample.base Sample.reach = Ok delta
    /\ (forall k, In k (dict_keys delta) ->
                  dict_get (deref h' (options r)) k
                  = dict_get (deref Sample.h0 (options Sample.reach)) k)
    /\ (forall k, ~ In k (dict_keys delta) ->
                  dict_get (deref h' (options r)) k
                  = dict_get (deref Sample.h0 (options Sample.base)) k).
Proof.
  apply (accept_all_correctness Sample.gcc Sample.utf8_any Sample.accept
           Sample.h0 Sample.base Sample.reach Sample.reach_options).
  - vm_compute. repeat apply NoDup_cons_2; try apply NoDup_nil_2;
      intros Hin%list_elem_of_In; simpl in Hin; intuition discriminate.
  - intros k Hk. vm_compute in Hk.
    destruct Hk as [<- | [<- | [<- | []]]]; eexists; vm_compute; reflexivity.
  - reflexivity.
  - intros k Hk. vm_compute in Hk.
    destruct Hk as [<- | [<- | [<- | []]]]; eexists; vm_compute; reflexivity.
  - reflexivity.
Defined.

(** * Further properties of the code *)

(** ** [diff] of equal dictionaries *)

(** X1. Two sets with the same options (the same dictionary, or equal
    ones) have an empty [diff]. *)
Theorem diff_equal_options (h : heap) (self other : Optimizers) :
  deref h (options self) = deref h (options other) ->
  NoDup (dict_keys (deref h (options other))) ->
  diff h self other = Ok [].
Proof.
  intros Heq Hnd. unfold diff. rewrite Heq. now apply diff_items_self.
Qed.

Lemma diff_equal_options_witness :
  diff Sample.h0 Sample.base Demo.twin = Ok [].
Proof.
  apply (diff_equal_options Sample.h0 Sample.base Demo.twin).
  - reflexivity.
  - vm_compute. repeat apply NoDup_cons_2; try apply NoDup_nil_2;
      intros Hin%list_elem_of_In; simpl in Hin; intuition discriminate.
Defined.

(** ** The dictionary [fromArgs] builds *)

Lemma dict_get_set_same (d : dict) (k v : string) :
  dict_get (dict_set d k v) k = Some v.
Proof.
  induction d as [|[k' v'] d IH]; simpl.
  - now rewrite String.eqb_refl.
  - case_eqb k' k; simpl.
    + subst. now rewrite String.eqb_refl.
    + apply eqb_string_false in E. now rewrite E.
Qed.

Lemma dict_get_app (d d' : dict) (k : string) :
  dict_get (d ++ d') k
  = match dict_get d k with Some v => Some v | None => dict_get d' k end.
Proof.
  induction d as [|[k' v'] d IH]; simpl; [reflexivity|].
  now destruct (String.eqb k' k).
Qed.

Lemma dict_set_keys_in (d : dict) (k v k' : string) :
  In k' (dict_keys (dict_set d k v)) -> k' = k \/ In k' (dict_keys d).
Proof.
  destruct (dict_get d k) as [o|] eqn:Hk.
  - rewrite (dict_keys_set _ _ _ _ Hk). auto.
  - rewrite (dict_keys_set_new _ _ _ Hk), in_app_iff. simpl. intuition.
Qed.

Lemma fold_dict_set_keys (pairs : list (string * string)) :
  forall (d : dict) (k : string),
    In k (dict_keys (fold_left (fun d p => dict_set d (fst p) (snd p)) pairs d)) ->
    In k (dict_keys d) \/ In k (map fst pairs).
Proof.
  induction pairs as [|[k0 v0] pairs IH]; intros d k; simpl; [auto|].
  intros Hin. apply IH in Hin. destruct Hin as [Hin | Hin]; [|auto].
  apply dict_set_keys_in in Hin. intuition.
Qed.

Lemma keep_row_prefix (rows : list (list string)) (k : string) :
  In k (map fst (omap keep_row rows)) -> String.prefix "-f" k = true.
Proof.
  rewrite in_map_iff. intros [[k' v] [<- Hin]].
  apply list_elem_of_In, list_elem_of_omap in Hin.
  destruct Hin as (row & _ & Hrow). unfold keep_row in Hrow.
  destruct row as [|name [|state [|]]]; try discriminate.
  destruct (String.prefix "-f" name) eqn:Hp; [|discriminate].
  injection Hrow as <- <-. exact Hp.
Qed.

(** X2. The set [fromArgs] returns is bound to the arguments and the
    compiler it was given; its options have no flag twice, and every flag
    starts with [-f]. *)
Theorem fromArgs_options_wellformed
  (run_cc : string -> list string -> cc_outcome) (h h' : heap)
  (cmd_args : list string) (compiler : string) (S : Optimizers) :
  fromArgs run_cc h cmd_args compiler = Ok (h', S) ->
  args S = cmd_args /\ cc S = compiler
  /\ NoDup (dict_keys (deref h' (options S)))
  /\ forall k, In k (dict_keys (deref h' (options S))) ->
               String.prefix "-f" k = true.
Proof.
  unfold fromArgs, query.
  destruct (run_cc compiler cmd_args) as [rows| | |]; cbn [bind]; try discriminate.
  intros [= <- <-]. cbn [args cc options].
  unfold deref. rewrite lookup_insert_eq. cbn [default].
  repeat split.
  - apply dict_of_NoDup.
  - intros k Hin. apply fold_dict_set_keys in Hin.
    destruct Hin as [[] | Hin]. now apply keep_row_prefix in Hin.
Qed.

Lemma fromArgs_options_wellformed_witness :
  args (mkOptimizers (fresh (dom Sample.h0)) ["-O2"] "gcc") = ["-O2"]
  /\ cc (mkOptimizers (fresh (dom Sample.h0)) ["-O2"] "gcc") = "gcc"
  /\ NoDup (dict_keys (deref (<[fresh (dom Sample.h0)
                                := parse_report (Sample.report Sample.base_options)]>
                               Sample.h0)
                         (options (mkOptimizers (fresh (dom Sample.h0)) ["-O2"] "gcc"))))
  /\ forall k,
      In k (dict_keys (deref (<[fresh (dom Sample.h0)
                                := parse_report (Sample.report Sample.base_options)]>
                               Sample.h0)
                         (options (mkOptimizers (fresh (dom Sample.h0)) ["-O2"] "gcc")))) ->
      String.prefix "-f" k = true.
Proof.
  apply (fromArgs_options_wellformed Sample.gcc Sample.h0 _ ["-O2"] "gcc").
  reflexivity.
Defined.

Lemma fold_dict_set_get (pairs : list (string * string)) :
  forall (d : dict) (k : string),
    dict_get (fold_left (fun d p => dict_set d (fst p) (snd p)) pairs d) k
    = match dict_get (rev pairs) k with
      | Some v => Some v
      | None => dict_get d k
      end.
Proof.
  induction pairs as [|[k0 v0] pairs IH]; intros d k; [reflexivity|].
  cbn [fold_left rev fst snd]. rewrite IH, dict_get_app.
  destruct (dict_get (rev pairs) k) as [v|]; [reflexivity|].
  cbn [dict_get]. case_eqb k0 k.
  - subst. apply dict_get_set_same.
  - now apply dict_get_set_ne.
Qed.

(** X3. In the options [fromArgs] builds from a report, a flag has the
    state of the last row that the filter keeps for it (a row of exactly two
    tokens whose first starts with [-f]); a flag with no such row is not in
    the options. *)
Theorem parse_report_last_row_wins (rows : list (list string)) (name : string) :
  dict_get (parse_report rows) name = dict_get (rev (omap keep_row rows)) name.
Proof.
  unfold parse_report, dict_of. rewrite fold_dict_set_get.
  now destruct (dict_get (rev (omap keep_row rows)) name).
Qed.

Example sample_parse_report :
  parse_report Demo.rows
  = [("-ftree-vectorize", "[disabled]"); ("-funroll-loops", "[disabled]")].
Proof. reflexivity. Qed.

Lemma dict_set_new (d : dict) (k v : string) :
  dict_get d k = None -> dict_set d k v = d ++ [(k, v)].
Proof.
  induction d as [|[k' v'] d IH]; simpl; [reflexivity|].
  case_eqb k' k; [discriminate|]. intros H. now rewrite IH.
Qed.

Lemma fold_dict_set_distinct (pairs : list (string * string)) :
  forall d : dict,
    NoDup (map fst pairs) ->
    (forall k, In k (map fst pairs) -> dict_get d k = None) ->
    fold_left (fun d p => dict_set d (fst p) (snd p)) pairs d = d ++ pairs.
Proof.
  induction pairs as [|[k v] pairs IH]; intros d Hnd Hnew.
  - cbn. now rewrite app_nil_r.
  - cbn [fold_left fst snd map] in *.
    inversion Hnd as [|? ? Hk Hnd']; subst.
    rewrite (dict_set_new _ _ _ (Hnew k (or_introl eq_refl))).
    rewrite IH; [now rewrite <- app_assoc | exact Hnd' |].
    intros k' Hin. rewrite dict_get_app, (Hnew k' (or_intror Hin)).
    cbn [dict_get]. case_eqb k k'; [|reflexivity].
    subst. exfalso. apply Hk. now apply list_elem_of_In.
Qed.

(** X4. A report that lists no flag twice is taken over row by row: the
    options are the rows the filter keeps, in the order of the report. *)
Theorem parse_report_keeps_order (rows : list (list string)) :
  NoDup (map fst (omap keep_row rows)) ->
  parse_report rows = omap keep_row rows.
Proof.
  intros Hnd. unfold parse_report, dict_of.
  now rewrite (fold_dict_set_distinct _ [] Hnd).
Qed.

Lemma parse_report_keeps_order_witness :
  parse_report (Sample.report Sample.reach_options)
  = omap keep_row (Sample.report Sample.reach_options).
Proof.
  apply (parse_report_keeps_order (Sample.report Sample.reach_options)).
  vm_compute. repeat apply NoDup_cons_2; try apply NoDup_nil_2;
    intros Hin%list_elem_of_In; simpl in Hin; intuition discriminate.
Defined.

(** ** What [flatten] returns and when *)

Lemma diff_items_incl (self_options items delta : dict) :
  diff_items self_options items = Ok delta ->
  (forall p, In p delta -> In p items) /\ length delta <= length items.
Proof.
  revert delta. induction items as [|[k v] items IH]; intros delta; simpl.
  - intros [= <-]. split; [tauto | reflexivity].
  - destruct (dict_get self_options k) as [sv|]; [|discriminate].
    destruct (diff_items self_options items) as [tl|e]; cbn [bind]; [|discriminate].
    destruct (IH tl eq_refl) as [Hin Hlen].
    destruct (String.eqb sv v); intros [= <-]; split; simpl; try lia.
    + intros p Hp. right. auto.
    + intros p [<- | Hp]; [now left | right; auto].
Qed.

Lemma diff_items_defined (self_options items delta : dict) :
  diff_items self_options items = Ok delta ->
  forall k, In k (dict_keys items) -> exists v, dict_get self_options k = Some v.
Proof.
  intros Hok k Hin. destruct (dict_get self_options k) as [v|] eqn:Hk; [eauto|].
  destruct (diff_items_KeyError self_options items) as (k' & Hraise & _); [eauto|].
  congruence.
Qed.

Lemma prefix_f_inv (name : string) :
  String.prefix "-f" name = true -> exists rest, name = "-f" +:+ rest.
Proof.
  destruct name as [|a [|b rest]]; cbn [String.prefix]; try discriminate.
  - destruct (ascii_dec "-" a); discriminate.
  - destruct (ascii_dec "-" a); [|discriminate].
    destruct (ascii_dec "f" b); [|discriminate].
    subst. intros _. now exists rest.
Qed.

Lemma prefix_f_app (rest : string) : String.prefix "-f" ("-f" +:+ rest) = true.
Proof. destruct rest; reflexivity. Qed.

Lemma transform_prefix (name value : string) :
  String.prefix "-f" name = true ->
  String.prefix "-f" (transform (name, value)) = true.
Proof.
  intros Hp. unfold transform. cbn [fst snd].
  destruct (String.eqb value "[enabled]"); [exact Hp|].
  destruct (prefix_f_inv _ Hp) as [rest ->].
  destruct (String.eqb value "[disabled]").
  - rewrite replace_first_rewrite_leftmost, rewrite_leftmost_prefix.
    apply (prefix_f_app ("no-" +:+ rest)).
  - apply (prefix_f_app (rest +:+ value)).
Qed.

Lemma flatten_shape
  (run_cc : string -> list string -> cc_outcome) (h : heap) (self : Optimizers)
  (L : list string) :
  flatten run_cc h self = Ok L ->
  exists flags,
    L = args self ++ flags
    /\ length flags <= length (deref h (options self))
    /\ ((forall k, In k (dict_keys (deref h (options self))) ->
                   String.prefix "-f" k = true) ->
        forall t, In t flags -> String.prefix "-f" t = true).
Proof.
  unfold flatten.
  destruct (query run_cc (args self) (cc self)) as [implied|e]; cbn [bind];
    [|discriminate].
  destruct (diff_items implied (deref h (options self))) as [delta|e] eqn:Hd;
    cbn [bind]; [|discriminate].
  intros [= <-]. destruct (diff_items_incl _ _ _ Hd) as [Hincl Hlen].
  exists (map transform (List.filter not_default delta)). repeat split.
  - rewrite length_map.
    pose proof (filter_length_le not_default delta). lia.
  - intros Hkeys t Ht. apply in_map_iff in Ht.
    destruct Ht as [[name value] [<- Hin]]. apply filter_In in Hin.
    apply transform_prefix, Hkeys. unfold dict_keys.
    apply in_map_iff. exists (name, value). split; [reflexivity|].
    apply Hincl, Hin.
Qed.

(** X6. Whatever [flatten] returns starts with the arguments of the set,
    followed by at most one token per flag of the set; when the flags of
    the set start with [-f], as those of [fromArgs] do, so does every
    token after the arguments. *)
Theorem flatten_tokens
  (run_cc : string -> list string -> cc_outcome) (h : heap) (self : Optimizers)
  (L : list string) :
  flatten run_cc h self = Ok L ->
  exists flags,
    L = args self ++ flags
    /\ length flags <= length (deref h (options self))
    /\ ((forall k, In k (dict_keys (deref h (options self))) ->
                   String.prefix "-f" k = true) ->
        forall t, In t flags -> String.prefix "-f" t = true).
Proof. apply flatten_shape. Qed.

Lemma flatten_tokens_witness :
  exists flags,
    ["-O3"; "-ftree-vectorize"; "-fno-unroll-loops"] = args Sample.working ++ flags
    /\ length flags <= length (deref Sample.h0 (options Sample.working))
    /\ ((forall k, In k (dict_keys (deref Sample.h0 (options Sample.working))) ->
                   String.prefix "-f" k = true) ->
        forall t, In t flags -> String.prefix "-f" t = true).
Proof.
  apply (flatten_tokens Sample.gcc Sample.h0 Sample.working).
  vm_compute. reflexivity.
Defined.

(** X7. [flatten] returns exactly when the compiler answers the re-query
    and the implied set knows every flag of the set; it fails with the
    error of the compiler when the re-query fails, and with a [KeyError]
    when the set has a flag that the implied set lacks. *)
Theorem flatten_returns_iff
  (run_cc : string -> list string -> cc_outcome) (h : heap) (self : Optimizers) :
  ((exists L, flatten run_cc h self = Ok L) <->
   (exists implied,
       query run_cc (args self) (cc self) = Ok implied
       /\ forall k, In k (dict_keys (deref h (options self))) ->
                    exists v, dict_get implied k = Some v))
  /\ (forall e, query run_cc (args self) (cc self) = Raise e ->
                flatten run_cc h self = Raise e)
  /\ (forall implied k,
         query run_cc (args self) (cc self) = Ok implied ->
         In k (dict_keys (deref h (options self))) ->
         dict_get implied k = None ->
         exists k', flatten run_cc h self = Raise (KeyError k')
                    /\ dict_get implied k' = None).
Proof.
  unfold flatten. split; [split|split].
  - intros [L HL].
    destruct (query run_cc (args self) (cc self)) as [implied|e]; cbn [bind] in HL;
      [|discriminate].
    exists implied. split; [reflexivity|].
    destruct (diff_items implied (deref h (options self))) as [delta|e] eqn:Hd;
      cbn [bind] in HL; [|discriminate].
    eapply diff_items_defined; eauto.
  - intros (implied & -> & Hkeys). cbn [bind].
    rewrite (diff_items_ok _ _ Hkeys). cbn [bind]. eauto.
  - intros e ->. reflexivity.
  - intros implied k -> Hin Hnone. cbn [bind].
    destruct (diff_items_KeyError implied (deref h (options self)))
      as (k' & -> & _ & Hk'); [eauto|].
    exists k'. split; [reflexivity | exact Hk'].
Qed.

Lemma flatten_returns_iff_witness :
  (exists L, flatten Sample.gcc Sample.h0 Sample.working = Ok L)
  /\ flatten Sample.broken_cc Sample.h0 Sample.working
     = Raise (CalledProcessError (Some "")
                (Some "gcc: error: unrecognized command-line option"))
  /\ exists k', flatten Sample.gcc Demo.h1 Demo.odd = Raise (KeyError k')
                /\ dict_get Sample.reach_options k' = None.
Proof.
  split; [|split].
  - apply (proj1 (flatten_returns_iff Sample.gcc Sample.h0 Sample.working)).
    exists Sample.reach_options. split; [reflexivity|].
    intros k Hk. vm_compute in Hk.
    destruct Hk as [<- | [<- | [<- | []]]]; eexists; vm_compute; reflexivity.
  - apply (proj1 (proj2 (flatten_returns_iff Sample.broken_cc Sample.h0 Sample.working))).
    reflexivity.
  - apply (proj2 (proj2 (flatten_returns_iff Sample.gcc Demo.h1 Demo.odd))
             Sample.reach_options "-fweb").
    + reflexivity.
    + vm_compute. auto.
    + reflexivity.
Defined.

(** ** The walk under any predicate *)

Section AnyPredicate.

Variable run_cc : string -> list string -> cc_outcome.
Variable utf8_ok : string -> bool.
Variable testOptions : list string -> res unit.

Lemma regress_loop_nothing_differs (h : heap) (base result : Optimizers)
      (items : dict) :
  (forall k v, In (k, v) items -> dict_get (deref h (options base)) k = Some v) ->
  regress_loop run_cc utf8_ok testOptions h base result items = (h, Ok tt).
Proof.
  induction items as [|[key value] items IH]; intros Hsame; [reflexivity|].
  cbn [regress_loop]. rewrite (Hsame key value (or_introl eq_refl)).
  rewrite String.eqb_refl. apply IH. intros k v Hin. apply Hsame. now right.
Qed.

Lemma trial_value (h h1 : heap) (result : Optimizers) (key value : string)
      (r : res unit) :
  trial run_cc utf8_ok testOptions h result key value = (h1, r) ->
  forall k,
    dict_get (deref h1 (options result)) k = dict_get (deref h (options result)) k
    \/ (k = key /\ dict_get (deref h1 (options result)) k = Some value).
Proof.
  unfold trial.
  destruct (dict_get (deref h (options result)) key) as [original|] eqn:Hk.
  2:{ intros [= <- <-]. auto. }
  assert (Hset : forall k,
             dict_get (deref (store h (options result) key value) (options result)) k
             = dict_get (deref h (options result)) k
             \/ (k = key
                 /\ dict_get (deref (store h (options result) key value)
                               (options result)) k = Some value)).
  { intros k. rewrite deref_store_eq. destruct (String.eq_dec key k) as [<- | Hne].
    - right. split; [reflexivity|]. eapply dict_get_set_eq; eauto.
    - left. now apply dict_get_set_ne. }
  destruct (try_body _ _ _ _) as [u|e].
  - intros [= <- <-]. exact Hset.
  - destruct (is_SubprocessError e); intros [= <- <-].
    + rewrite (store_back _ _ _ _ _ Hk). auto.
    + exact Hset.
Qed.

Lemma regress_loop_values (base result : Optimizers) (items : dict) :
  options result = options base ->
  forall (h h' : heap) (r : res unit),
    regress_loop run_cc utf8_ok testOptions h base result items = (h', r) ->
    forall k,
      dict_get (deref h' (options base)) k = dict_get (deref h (options base)) k
      \/ exists v, In (k, v) items /\ dict_get (deref h' (options base)) k = Some v.
Proof.
  intros Hopt. induction items as [|[key value] items IH]; intros h h' r; simpl.
  - intros [= <- <-]. auto.
  - destruct (dict_get (deref h (options base)) key) as [current|].
    2:{ intros [= <- <-]. auto. }
    destruct (String.eqb current value).
    + intros Hloop k. destruct (IH _ _ _ Hloop k) as [Hk | (v & Hin & Hk)]; eauto.
    + destruct (trial _ _ _ h result key value) as [h1 r1] eqn:Ht.
      pose proof (trial_value _ _ _ _ _ _ Ht) as Hv. rewrite Hopt in Hv.
      destruct r1 as [u|e].
      * intros Hloop k.
        destruct (IH _ _ _ Hloop k) as [Hk | (v & Hin & Hk)]; [|eauto].
        rewrite Hk. destruct (Hv k) as [Hk1 | [-> Hk1]]; eauto.
      * intros [= <- <-] k. destruct (Hv k) as [Hk1 | [-> Hk1]]; eauto.
Qed.

(** X8. When no item of [reach.options] differs from [base.options] (so
    also when both sets are on one dictionary), [regress] returns at once:
    the store is as it was, and neither the compiler nor the predicate
    has any part in the result. *)
Theorem regress_nothing_differs (h : heap) (base reach : Optimizers) :
  (forall k v, In (k, v) (deref h (options reach)) ->
               dict_get (deref h (options base)) k = Some v) ->
  regress run_cc utf8_ok testOptions h base reach
  = (h, Ok (mkOptimizers (options base) (args reach) (cc base))).
Proof.
  intros Hsame. unfold regress.
  now rewrite (regress_loop_nothing_differs _ _ _ _ Hsame).
Qed.

(** X9. Whatever the predicate does, and whether [regress] returns or
    raises, every flag of the working dictionary ends with the value it had
    in [base.options] or with a value [reach.options] has for it. *)
Theorem regress_values_from_base_or_reach
  (h h' : heap) (base reach : Optimizers) (r : res Optimizers) :
  regress run_cc utf8_ok testOptions h base reach = (h', r) ->
  forall k,
    dict_get (deref h' (options base)) k = dict_get (deref h (options base)) k
    \/ exists v, In (k, v) (deref h (options reach))
                 /\ dict_get (deref h' (options base)) k = Some v.
Proof.
  unfold regress.
  destruct (regress_loop _ _ _ h base _ _) as [h1 r1] eqn:Hloop.
  intros Hr.
  assert (h1 = h') as -> by (destruct r1; congruence).
  eapply regress_loop_values; [|exact Hloop]. reflexivity.
Qed.

(** X10. When the walk reaches a flag of [reach] that [base] lacks,
    [regress] raises the [KeyError] of that flag; the trials accepted
    before stay written in [base.options]. *)
Theorem regress_unknown_flag
  (h h1 : heap) (base reach : Optimizers) (pre post : dict) (key value : string) :
  deref h (options reach) = pre ++ (key, value) :: post ->
  regress_loop run_cc utf8_ok testOptions h base
    (mkOptimizers (options base) (args reach) (cc base)) pre = (h1, Ok tt) ->
  dict_get (deref h (options base)) key = None ->
  regress run_cc utf8_ok testOptions h base reach = (h1, Raise (KeyError key)).
Proof.
  intros Hitems Hpre Hnone. unfold regress.
  rewrite Hitems, regress_loop_app, Hpre. cbn [regress_loop].
  apply regress_loop_frame in Hpre as [_ Hkeys]; [|reflexivity].
  rewrite dict_get_not_key; [reflexivity|].
  rewrite Hkeys. now apply dict_get_None_key.
Qed.

End AnyPredicate.

Lemma regress_nothing_differs_witness :
  regress Sample.missing_cc Sample.utf8_any Sample.crash Sample.h0
    Sample.base Demo.twin
  = (Sample.h0,
     Ok (mkOptimizers (options Sample.base) (args Demo.twin) (cc Sample.base))).
Proof.
  apply (regress_nothing_differs Sample.missing_cc Sample.utf8_any Sample.crash
           Sample.h0 Sample.base Demo.twin).
  intros k v Hin. vm_compute in Hin.
  destruct Hin as [[= <- <-] | [[= <- <-] | [[= <- <-] | []]]]; reflexivity.
Defined.

Lemma regress_values_from_base_or_reach_witness :
  dict_get (deref (<[0 := [("-ftree-vectorize", "[disabled]");
                            ("-funroll-loops", "[disabled]");
                            ("-finline-limit", "=600")]]> Sample.h0)
              (options Sample.base)) "-ftree-vectorize"
  = dict_get (deref Sample.h0 (options Sample.base)) "-ftree-vectorize"
  \/ exists v,
      In ("-ftree-vectorize", v) (deref Sample.h0 (options Sample.reach))
      /\ dict_get (deref (<[0 := [("-ftree-vectorize", "[disabled]");
                                   ("-funroll-loops", "[disabled]");
                                   ("-finline-limit", "=600")]]> Sample.h0)
                     (options Sample.base)) "-ftree-vectorize"
         = Some v.
Proof.
  apply (regress_values_from_base_or_reach Sample.gcc Sample.utf8_any
           Sample.no_unroll Sample.h0 _ Sample.base Sample.reach
           (Ok Sample.working)).
  vm_compute. reflexivity.
Defined.

Lemma regress_unknown_flag_witness :
  regress Sample.gcc Sample.utf8_any Sample.accept Sample.h0
    Sample.narrow Sample.reach
  = (store Sample.h0 (options Sample.narrow) "-ftree-vectorize" "[disabled]",
     Raise (KeyError "-funroll-loops")).
Proof.
  apply (regress_unknown_flag Sample.gcc Sample.utf8_any Sample.accept
           Sample.h0 _ Sample.narrow Sample.reach
           [("-ftree-vectorize", "[disabled]")] [("-finline-limit", "=600")]
           "-funroll-loops" "[enabled]").
  - reflexivity.
  - vm_compute. reflexivity.
  - reflexivity.
Defined.

(** ** The command vectors of [testPredicate] *)

Lemma join_cmds_cons (cmd : list string) (cmds : list (list string)) :
  cmds <> [] -> join_cmds (cmd :: cmds) = cmd ++ ";" :: join_cmds cmds.
Proof. destruct cmds; [congruence | reflexivity]. Qed.

Lemma join_cmds_closed (cmds : list (list string)) (argv extra : list string) :
  join_cmds ((cmds ++ [argv]) ++ [extra])
  = join_cmds (cmds ++ [argv]) ++ ";" :: extra.
Proof.
  induction cmds as [|cmd cmds IH]; [reflexivity|].
  cbn [app]. rewrite !join_cmds_cons by (now destruct cmds).
  rewrite IH. now rewrite <- app_assoc.
Qed.

Lemma join_cmds_filled (cmds : list (list string)) (argv : list string)
      (token : string) :
  join_cmds (cmds ++ [argv ++ [token]]) = join_cmds (cmds ++ [argv]) ++ [token].
Proof.
  induction cmds as [|cmd cmds IH]; [reflexivity|].
  cbn [app]. rewrite !join_cmds_cons by (now destruct cmds).
  rewrite IH. now rewrite <- app_assoc.
Qed.

Lemma split_cmds_join (tokens : list string) :
  forall (cmds : list (list string)) (argv : list string),
    join_cmds (split_cmds cmds argv tokens) = join_cmds (cmds ++ [argv]) ++ tokens.
Proof.
  induction tokens as [|token tokens IH]; intros cmds argv; cbn [split_cmds].
  - now rewrite app_nil_r.
  - case_eqb token ";".
    + subst. rewrite IH, join_cmds_closed. now rewrite <- app_assoc.
    + rewrite IH, join_cmds_filled. now rewrite <- app_assoc.
Qed.

Lemma split_cmds_length (tokens : list string) :
  forall (cmds : list (list string)) (argv : list string),
    length (split_cmds cmds argv tokens)
    = S (length cmds + count_occ String.string_dec tokens ";").
Proof.
  induction tokens as [|token tokens IH]; intros cmds argv; cbn [split_cmds count_occ].
  - rewrite length_app. simpl. lia.
  - destruct (String.string_dec token ";") as [-> | Hne].
    + rewrite String.eqb_refl, IH, length_app. simpl. lia.
    + apply eqb_string_false in Hne. rewrite Hne. apply IH.
Qed.

Lemma split_cmds_clean (tokens : list string) :
  forall (cmds : list (list string)) (argv : list string),
    (forall cmd, In cmd cmds -> ~ In ";" cmd) -> ~ In ";" argv ->
    forall cmd, In cmd (split_cmds cmds argv tokens) -> ~ In ";" cmd.
Proof.
  induction tokens as [|token tokens IH]; intros cmds argv Hcmds Hargv;
    cbn [split_cmds].
  - intros cmd Hin. apply in_app_iff in Hin.
    destruct Hin as [Hin | [<- | []]]; auto.
  - case_eqb token ";".
    + apply IH; [|tauto]. intros cmd Hin. apply in_app_iff in Hin.
      destruct Hin as [Hin | [<- | []]]; auto.
    + apply IH; [exact Hcmds|]. intros Hin. apply in_app_iff in Hin.
      destruct Hin as [Hin | [Heq | []]]; [tauto | congruence].
Qed.

(** X11. The loop of [testPredicate] that splits the token stream at [';']
    loses nothing: the vectors joined with [';'] are the stream again, there
    is one vector more than there are [';'] tokens, and no vector holds a
    [';']. *)
Theorem split_cmds_round_trip (tokens : list string) :
  join_cmds (split_cmds [] [] tokens) = tokens
  /\ length (split_cmds [] [] tokens) = S (count_occ String.string_dec tokens ";")
  /\ forall cmd, In cmd (split_cmds [] [] tokens) -> ~ In ";" cmd.
Proof.
  split; [|split].
  - now rewrite split_cmds_join.
  - now rewrite split_cmds_length.
  - apply split_cmds_clean; simpl; tauto.
Qed.

Section RunAll.

Variable run_cmd : list string -> run_outcome.

Lemma subprocess_run_clean (cmd : list string) :
  subprocess_run run_cmd cmd = Ok tt <-> runs_clean run_cmd cmd.
Proof.
  unfold subprocess_run, runs_clean. destruct cmd as [|c cmd].
  - split; [discriminate | intros [[] _]; reflexivity].
  - destruct (run_cmd (c :: cmd)); split; try discriminate;
      try (intros [_ H]; discriminate); auto.
Qed.

(** X12. The commands of the predicate return normally exactly when every
    command vector is non-empty and exits with status 0. *)
Theorem run_all_ok_iff (cmds : list (list string)) :
  run_all run_cmd cmds = Ok tt <-> Forall (runs_clean run_cmd) cmds.
Proof.
  induction cmds as [|cmd cmds IH]; cbn [run_all].
  - split; [constructor | reflexivity].
  - rewrite Forall_cons, <- IH, <- subprocess_run_clean.
    destruct (subprocess_run run_cmd cmd) as [[]|e]; cbn [bind].
    + tauto.
    + split; [discriminate | intros [H _]; discriminate].
Qed.

(** X13. The commands are run in order and the first one to fail ends the
    predicate with its exception, whatever follows it. *)
Theorem run_all_first_failure (pre post : list (list string))
        (cmd : list string) (e : exn) :
  Forall (runs_clean run_cmd) pre ->
  subprocess_run run_cmd cmd = Raise e ->
  run_all run_cmd (pre ++ cmd :: post) = Raise e.
Proof.
  intros Hpre Hcmd. rewrite run_all_app.
  apply run_all_ok_iff in Hpre. rewrite Hpre. cbn [bind run_all].
  now rewrite Hcmd.
Qed.

End RunAll.

Lemma run_all_first_failure_witness :
  run_all Demo.passes ([["make"; "test"]] ++ [] :: [["./test"]]) = Raise IndexError.
Proof.
  apply (run_all_first_failure Demo.passes [["make"; "test"]] [["./test"]] []).
  - repeat constructor. discriminate.
  - reflexivity.
Defined.

Lemma testPredicate_trailing_semicolon_witness :
  exists e, testPredicate Demo.closed Demo.passes ["-O3"] = Raise e
            /\ (run_all Demo.passes (split_cmds [] [] ["make"; "test"]) = Ok tt ->
                e = IndexError).
Proof.
  apply (testPredicate_trailing_semicolon Demo.closed Demo.passes ["-O3"]
           ["make"; "test"]).
  reflexivity.
Defined.

(** ** The program from end to end *)

Lemma parse_report_prefix (rows : list (list string)) (k : string) :
  In k (dict_keys (parse_report rows)) -> String.prefix "-f" k = true.
Proof.
  intros Hin. apply fold_dict_set_keys in Hin.
  destruct Hin as [[] | Hin]. now apply keep_row_prefix in Hin.
Qed.

Section Program.

Variable run_cc : string -> list string -> cc_outcome.
Variable utf8_ok : string -> bool.
Variable tokenise : list string -> res (list string).
Variable run_cmd : list string -> run_outcome.

Variables begin_args end_args : list string.
Variables compiler separator : string.
Variables begin_rows end_rows : list (list string).

Hypothesis Hbegin : run_cc compiler begin_args = CcReport begin_rows.
Hypothesis Hend : run_cc compiler end_args = CcReport end_rows.

(** With both reports at hand, the program is the walk between two sets
    on two dictionaries, followed by [flatten]. *)
Lemma main_reports (h : heap) :
  exists (h2 : heap) (base reach : Optimizers),
    deref h2 (options base) = parse_report begin_rows
    /\ deref h2 (options reach) = parse_report end_rows
    /\ args reach = end_args /\ cc base = compiler
    /\ main run_cc utf8_ok tokenise run_cmd h begin_args end_args compiler separator
       = match regress run_cc utf8_ok (testPredicate tokenise run_cmd)
                 h2 base reach with
         | (h3, Raise e) => (h3, Raise e)
         | (h3, Ok working) =>
             (h3, do argv <- flatten run_cc h3 working;
                  Ok (String.concat separator argv))
         end.
Proof.
  set (l1 := fresh (dom h)).
  set (h1 := <[l1 := parse_report begin_rows]> h).
  set (l2 := fresh (dom h1)).
  assert (Hne : l2 <> l1).
  { intros Heq. apply (is_fresh (dom h1)). fold l2. rewrite Heq.
    apply elem_of_dom. unfold h1. rewrite lookup_insert_eq. eauto. }
  exists (<[l2 := parse_report end_rows]> h1),
    (mkOptimizers l1 begin_args compiler), (mkOptimizers l2 end_args compiler).
  cbn [options args cc]. repeat split.
  - unfold deref. rewrite lookup_insert_ne by exact Hne.
    unfold h1. now rewrite lookup_insert_eq.
  - unfold deref. now rewrite lookup_insert_eq.
  - unfold main, fromArgs, query. rewrite Hbegin. cbn [bind].
    fold l1. fold h1. rewrite Hend. cbn [bind]. reflexivity.
Qed.

Hypothesis Hflags :
  forall k, In k (dict_keys (parse_report begin_rows))
            <-> In k (dict_keys (parse_report end_rows)).

(** X15. When the compiler reports the same flags for both option
    strings and the predicate accepts every trial, the program prints the
    [end] options and nothing else. *)
Theorem main_all_accepted (h : heap) :
  (forall argv, testPredicate tokenise run_cmd argv = Ok tt) ->
  exists h',
    main run_cc utf8_ok tokenise run_cmd h begin_args end_args compiler separator
    = (h', Ok (String.concat separator end_args)).
Proof.
  intros Hpred.
  destruct (main_reports h) as (h2 & base & reach & Hb & He & Hargs & Hcc & ->).
  set (result := mkOptimizers (options base) (args reach) (cc base)).
  assert (Hq : query run_cc (args result) (cc result) = Ok (parse_report end_rows)).
  { unfold query. cbn [args cc result]. now rewrite Hargs, Hcc, Hend. }
  destruct (regress_loop_all_accepted run_cc utf8_ok (testPredicate tokenise run_cmd)
              base result (parse_report end_rows) eq_refl Hq
              (deref h2 (options reach)) Hpred h2) as (h3 & Hloop & Hfinal).
  - rewrite He. apply dict_of_NoDup.
  - rewrite Hb. intros k Hk. apply dict_get_key. now apply Hflags.
  - rewrite He, Hb. intros k Hk. apply dict_get_key. now apply Hflags.
  - exists h3. unfold regress. fold result. rewrite Hloop.
    apply regress_loop_frame in Hloop as [_ Hkeys]; [|reflexivity].
    unfold flatten. rewrite Hq. cbn [bind options result].
    rewrite diff_items_agree;
      [cbn [bind List.filter map args result]; now rewrite app_nil_r, Hargs|].
    intros k v Hin.
    assert (Hk : In k (dict_keys (deref h3 (options base)))).
    { unfold dict_keys. apply in_map_iff. now exists (k, v). }
    apply dict_get_NoDup in Hin.
    2:{ rewrite Hkeys, Hb. apply dict_of_NoDup. }
    rewrite Hfinal, He in Hin. rewrite Hkeys, Hb in Hk.
    apply Hflags, dict_get_key in Hk. destruct Hk as [v' Hv'].
    rewrite Hv' in Hin. congruence.
Qed.

(** X16. When the compiler reports the same flags for both option
    strings and the predicate fails every trial, the program prints the
    [end] options followed by the flags that bring every option back to
    its [begin] state, in the order of the [begin] report. *)
Theorem main_all_rejected (h : heap) :
  (forall argv, exists e, testPredicate tokenise run_cmd argv = Raise e
                          /\ PredicateFailure utf8_ok e) ->
  exists h',
    main run_cc utf8_ok tokenise run_cmd h begin_args end_args compiler separator
    = (h', Ok (String.concat separator
                 (end_args
                  ++ flat_map emit
                       (List.filter (differs (parse_report end_rows))
                          (parse_report begin_rows))))).
Proof.
  intros Hpred.
  destruct (main_reports h) as (h2 & base & reach & Hb & He & Hargs & Hcc & ->).
  set (result := mkOptimizers (options base) (args reach) (cc base)).
  assert (Hq : query run_cc (args result) (cc result) = Ok (parse_report end_rows)).
  { unfold query. cbn [args cc result]. now rewrite Hargs, Hcc, Hend. }
  assert (Himpl : forall k, In k (dict_keys (deref h2 (options base))) ->
                            exists v, dict_get (parse_report end_rows) k = Some v).
  { rewrite Hb. intros k Hk. apply dict_get_key. now apply Hflags. }
  exists h2. unfold regress. fold result.
  rewrite (regress_loop_all_rejected run_cc utf8_ok (testPredicate tokenise run_cmd)
             base result (parse_report end_rows) eq_refl Hq h2 _ Hpred Himpl).
  - unfold flatten. rewrite Hq. cbn [bind options result].
    rewrite (diff_items_ok _ _ Himpl). cbn [bind].
    cbn [args result]. now rewrite transform_emit, Hb, Hargs.
  - rewrite He, Hb. intros k Hk. apply dict_get_key. now apply Hflags.
Qed.

End Program.

(** X17. Whatever the predicate does, a line the program prints is the
    [end] options followed by tokens that all start with [-f], joined by
    the separator. *)
Theorem main_prints_end_options
  (run_cc : string -> list string -> cc_outcome) (utf8_ok : string -> bool)
  (tokenise : list string -> res (list string))
  (run_cmd : list string -> run_outcome)
  (h h' : heap) (begin_args end_args : list string)
  (compiler separator out : string) :
  main run_cc utf8_ok tokenise run_cmd h begin_args end_args compiler separator
  = (h', Ok out) ->
  exists flags,
    out = String.concat separator (end_args ++ flags)
    /\ forall t, In t flags -> String.prefix "-f" t = true.
Proof.
  intros Hmain.
  destruct (run_cc compiler begin_args) as [begin_rows| | |] eqn:Hbegin;
    try (unfold main, fromArgs, query in Hmain; rewrite Hbegin in Hmain;
         discriminate).
  destruct (run_cc compiler end_args) as [end_rows| | |] eqn:Hend;
    try (unfold main, fromArgs, query in Hmain; rewrite Hbegin in Hmain;
         cbn [bind] in Hmain; rewrite Hend in Hmain; discriminate).
  destruct (main_reports run_cc utf8_ok tokenise run_cmd begin_args end_args
              compiler separator begin_rows end_rows Hbegin Hend h)
    as (h2 & base & reach & Hb & He & Hargs & Hcc & Heq).
  rewrite Heq in Hmain. clear Heq. unfold regress in Hmain.
  destruct (regress_loop _ _ _ h2 base _ _) as [h3 [u|e]] eqn:Hloop;
    [|discriminate].
  apply regress_loop_frame in Hloop as [_ Hkeys]; [|reflexivity].
  destruct (flatten run_cc h3 _) as [argv|e] eqn:Hflat; cbn [bind] in Hmain;
    [|discriminate].
  injection Hmain as _ <-.
  destruct (flatten_shape _ _ _ _ Hflat) as (flags & -> & _ & Hprefix).
  cbn [args options] in *. exists flags. split; [now rewrite Hargs|].
  apply Hprefix. rewrite Hkeys, Hb. apply parse_report_prefix.
Qed.

Lemma main_all_accepted_witness :
  exists h',
    main Sample.gcc Sample.utf8_any Demo.fixed Demo.passes Sample.h0
      ["-O2"] ["-O3"] "gcc" " "
    = (h', Ok (String.concat " " ["-O3"])).
Proof.
  apply (main_all_accepted Sample.gcc Sample.utf8_any Demo.fixed Demo.passes
           ["-O2"] ["-O3"] "gcc" " "
           (Sample.report Sample.base_options) (Sample.report Sample.reach_options)
           eq_refl eq_refl).
  - intros k. vm_compute. tauto.
  - intros argv. reflexivity.
Defined.

Lemma main_all_rejected_witness :
  exists h',
    main Sample.gcc Sample.utf8_any Demo.fixed Demo.fails Sample.h0
      ["-O2"] ["-O3"] "gcc" " "
    = (h', Ok (String.concat " "
                 (["-O3"]
                  ++ flat_map emit
                       (List.filter
                          (differs (parse_report (Sample.report Sample.reach_options)))
                          (parse_report (Sample.report Sample.base_options)))))).
Proof.
  apply (main_all_rejected Sample.gcc Sample.utf8_any Demo.fixed Demo.fails
           ["-O2"] ["-O3"] "gcc" " "
           (Sample.report Sample.base_options) (Sample.report Sample.reach_options)
           eq_refl eq_refl).
  - intros k. vm_compute. tauto.
  - intros argv. exists (CalledProcessError (Some "FAILED") None).
    split; [reflexivity|]. split; [reflexivity|].
    exists "FAILED". split; reflexivity.
Defined.

Lemma main_prints_end_options_witness :
  exists flags,
    "-O3 -ftree-vectorize -fno-unroll-loops" = String.concat " " (["-O3"] ++ flags)
    /\ forall t, In t flags -> String.prefix "-f" t = true.
Proof.
  eapply (main_prints_end_options Sample.gcc Sample.utf8_any Demo.fixed Demo.fails
            Sample.h0 _ ["-O2"] ["-O3"] "gcc" " ").
  vm_compute. reflexivity.
Defined.

Example sample_main :
  snd (main Sample.gcc Sample.utf8_any Demo.fixed Demo.fails Sample.h0
         ["-O2"] ["-O3"] "gcc" " ")
  = Ok "-O3 -ftree-vectorize -fno-unroll-loops".
Proof. vm_compute. reflexivity. Qed.

(** X18. Whether [regress] returns or raises, it writes to [base]'s
    dictionary only, and that dictionary keeps its flags and their order:
    a trial changes the value of a flag, never the set of flags. *)
Theorem regress_writes_base_only
  (run_cc : string -> list string -> cc_outcome) (utf8_ok : string -> bool)
  (testOptions : list string -> res unit)
  (h h' : heap) (base reach : Optimizers) (r : res Optimizers) :
  regress run_cc utf8_ok testOptions h base reach = (h', r) ->
  (forall l, l <> options base -> h' !! l = h !! l)
  /\ dict_keys (deref h' (options base)) = dict_keys (deref h (options base)).
Proof.
  unfold regress.
  destruct (regress_loop _ _ _ h base _ _) as [h1 r1] eqn:Hloop.
  intros Hr. assert (h1 = h') as -> by (destruct r1; congruence).
  eapply regress_loop_frame; [|exact Hloop]. reflexivity.
Qed.

Lemma regress_writes_base_only_witness :
  (forall l, l <> options Sample.base ->
             store Sample.h0 (options Sample.base) "-ftree-vectorize" "[disabled]" !! l
             = Sample.h0 !! l)
  /\ dict_keys (deref (store Sample.h0 (options Sample.base)
                         "-ftree-vectorize" "[disabled]") (options Sample.base))
     = dict_keys (deref Sample.h0 (options Sample.base)).
Proof.
  apply (regress_writes_base_only Sample.gcc Sample.utf8_any Sample.crash
           Sample.h0 _ Sample.base Sample.reach (Raise IndexError)).
  vm_compute. reflexivity.
Defined.

(** ** Failures that cannot be logged *)

Lemma regress_loop_silent_failures
  (run_cc : string -> list string -> cc_outcome)
  (utf8_ok : string -> bool) (testOptions : list string -> res unit)
  (base result : Optimizers) (implied : dict) (h : heap) :
  options result = options base ->
  query run_cc (args result) (cc result) = Ok implied ->
  (forall argv, exists e, testOptions argv = Raise e
                          /\ is_SubprocessError e = true
                          /\ exn_stdout e = None) ->
  (forall k, In k (dict_keys (deref h (options base))) ->
             exists v, dict_get implied k = Some v) ->
  forall items : dict,
    (forall k, In k (dict_keys items) ->
               exists v, dict_get (deref h (options base)) k = Some v) ->
    (exists k v, In (k, v) items /\ dict_get (deref h (options base)) k <> Some v) ->
    regress_loop run_cc utf8_ok testOptions h base result items
    = (h, Raise AttributeError).
Proof.
  intros Hopt Hq Hpred Himpl.
  induction items as [|[key value] items IH]; intros Hkeys (k0 & v0 & Hin & Hdiff).
  - destruct Hin.
  - destruct (Hkeys key (or_introl eq_refl)) as [current Hk].
    case_eqb current value.
    + cbn [regress_loop]. subst. rewrite Hk, String.eqb_refl.
      apply IH; [intros k Hk'; apply Hkeys; now right|].
      exists k0, v0. split; [|exact Hdiff].
      destruct Hin as [[= <- <-] | Hin]; [congruence | exact Hin].
    + rewrite (regress_loop_trial _ _ _ _ _ _ _ _ _ _ Hk E).
      destruct (flatten_defined_store run_cc base result implied Hopt Hq
                  h key value current Himpl Hk) as [argv Hflat].
      destruct (Hpred argv) as (e & He & Hsub & Hout).
      rewrite <- Hopt in *.
      rewrite (trial_reverted _ _ _ _ _ _ _ _ e Hk); [|unfold try_body; now rewrite Hflat|exact Hsub].
      unfold log_fail. now rewrite Hout.
Qed.

(** C3. The code where the predicate fails every trial without captured
    output (a command that runs into the timeout before it has written
    anything): the first trial is reverted and the store is what it was, so
    no flag change survives, but the log line of the handler raises
    [AttributeError] and [regress] returns no set at all. *)
Theorem revert_without_result
  (run_cc : string -> list string -> cc_outcome)
  (utf8_ok : string -> bool) (testOptions : list string -> res unit)
  (h : heap) (base reach : Optimizers) (implied : dict) :
  (forall k, In k (dict_keys (deref h (options reach))) ->
             exists v, dict_get (deref h (options base)) k = Some v) ->
  query run_cc (args reach) (cc base) = Ok implied ->
  (forall k, In k (dict_keys (deref h (options base))) ->
             exists v, dict_get implied k = Some v) ->
  (forall argv, exists e, testOptions argv = Raise e
                          /\ is_SubprocessError e = true
                          /\ exn_stdout e = None) ->
  (exists k v, In (k, v) (deref h (options reach))
               /\ dict_get (deref h (options base)) k <> Some v) ->
  regress run_cc utf8_ok testOptions h base reach = (h, Raise AttributeError).
Proof.
  intros Hkeys Hq Himpl Hpred Hdiff. unfold regress.
  now rewrite (regress_loop_silent_failures run_cc utf8_ok testOptions base
                 (mkOptimizers (options base) (args reach) (cc base)) implied h
                 eq_refl Hq Hpred Himpl _ Hkeys Hdiff).
Qed.

Lemma revert_without_result_witness :
  regress Sample.gcc Sample.utf8_any (testPredicate Demo.fixed Sample.hangs)
    Sample.h0 Sample.base Sample.reach
  = (Sample.h0, Raise AttributeError).
Proof.
  apply (revert_without_result Sample.gcc Sample.utf8_any
           (testPredicate Demo.fixed Sample.hangs)
           Sample.h0 Sample.base Sample.reach Sample.reach_options).
  - intros k Hk. vm_compute in Hk.
    destruct Hk as [<- | [<- | [<- | []]]]; eexists; vm_compute; reflexivity.
  - reflexivity.
  - intros k Hk. vm_compute in Hk.
    destruct Hk as [<- | [<- | [<- | []]]]; eexists; vm_compute; reflexivity.
  - intros argv. exists (TimeoutExpired None). repeat split; reflexivity.
  - exists "-ftree-vectorize", "[disabled]". split.
    + vm_compute. auto.
    + vm_compute. discriminate.
Defined.
